(** * taq_import.py: chunked parallel import of a TAQ trade file

    A shallow embedding of [src/taq_import.py].  The script strips the
    header and footer line of the input with [sed], counts the remaining
    lines with [wc -l], cuts them into [--chunks] line ranges, writes each
    range to its own file with [sed -n], loads every chunk file through
    [psql] in a process pool, prints a report and removes the temporary
    files when every load succeeded.

    Files are lists of lines, the file system is a finite map from paths to
    files, and [main] runs in a state-and-exception monad over the file
    system, the standard output and the log of loader invocations. *)

From stdpp Require Import base strings pretty list list_numbers gmap sorting.
From Stdlib Require Import ZArith QArith Lia.

Local Open Scope Z_scope.

(** ** The external text tools

    [sed] reads its input line by line and keeps a line counter; both
    scripts used by [main] address lines by number. *)

(** [sed '1d;$d']: line 1 and the last line are deleted, every other line is
    printed.  [k] is the number of the line at the head of [lines]. *)
Fixpoint sed_1d_lastd_from (k : Z) (lines : list string) : list string :=
  match lines with
  | [] => []
  | l :: rest =>
      if bool_decide (k = 1) || bool_decide (rest = [])
      then sed_1d_lastd_from (k + 1) rest
      else l :: sed_1d_lastd_from (k + 1) rest
  end.

Definition sed_1d_lastd (lines : list string) : list string :=
  sed_1d_lastd_from 1 lines.

(** [sed -n 'a,bp']: with [-n] only the addressed lines are printed.  The
    range [a,b] opens at line [a]; when [b] is a number not above [a], the
    range is that one line (POSIX sed: if the second address is a number
    less than or equal to the line number first selected, only one line is
    selected).  Otherwise it runs through line [b].  [main] only ever
    passes a first address [a >= 1]. *)
Fixpoint sed_n_p_from (a b k : Z) (lines : list string) : list string :=
  match lines with
  | [] => []
  | l :: rest =>
      if bool_decide (k = a ∨ a ≤ k ≤ b)
      then l :: sed_n_p_from a b (k + 1) rest
      else sed_n_p_from a b (k + 1) rest
  end.

Definition sed_n_p (a b : Z) (lines : list string) : list string :=
  sed_n_p_from a b 1 lines.

(** [wc -l]: every line of a file written by [sed] ends in a newline, so
    the count is the number of lines. *)
Definition wc_l (lines : list string) : Z := Z.of_nat (length lines).

(** ** Chunk boundaries (lines 70, 77 and 78 of [main]) *)

Definition chunk_start (chunk_size i : Z) : Z := i * chunk_size + 1.

Definition chunk_end (total_lines num_chunks chunk_size i : Z) : Z :=
  if bool_decide (i < num_chunks - 1) then (i + 1) * chunk_size else total_lines.

(** The paths of the temporary files (lines 65 and 79). *)
Definition clean_path : string := "/tmp/taq_clean".
Definition chunk_path (i : Z) : string :=
  "/tmp/taq_chunk_" +:+ pretty i +:+ ".csv".

(** The ranges [main] computes for a cleaned file of [total_lines] lines,
    with [chunk_size] already divided out, in loop order. *)
Definition chunk_ranges (total_lines num_chunks : Z) : list (Z * Z) :=
  let chunk_size := total_lines `div` num_chunks in
  (λ i, (chunk_start chunk_size i, chunk_end total_lines num_chunks chunk_size i))
    <$> seqZ 0 num_chunks.

(** Number of lines of the inclusive range [start, end]. *)
Definition range_size (r : Z * Z) : Z := r.2 - r.1 + 1.

Definition in_range (r : Z * Z) (k : Z) : Prop := r.1 ≤ k ≤ r.2.

(** ** Data *)

(** The parsed command line: [--file] and [--chunks] (an [int], default 8,
    not validated). *)
Record Args := { file : string; chunks : Z }.

(** [status] of a chunk result: the strings ["SUCCESS"] and ["FAILED"]. *)
Inductive Status := SUCCESS | FAILED.

Global Instance Status_eq_dec : EqDecision Status.
Proof. solve_decision. Defined.

(** What one [psql] child process gives back to [import_chunk]: its return
    code, what it wrote to stderr, and the wall-clock time the worker
    measured around it. *)
Record PsqlRun (float : Type) :=
  { returncode : Z; stderr : string; elapsed : float }.
Global Arguments returncode {float} _.
Global Arguments stderr {float} _.
Global Arguments elapsed {float} _.

(** What the script takes from outside: Python's floats with the two
    operations line 99 and line 106 apply to them ([sum] of a generator of
    floats, and a float divided by an [int]), and the outcome of the [psql]
    command for a chunk file. *)
Class Environment := {
  float : Type;
  py_sum : list float → float;
  py_truediv : float → Z → float;
  psql : string → PsqlRun float
}.

(** The dictionary returned by [import_chunk] (lines 32-38); its key
    ["file"] is the field [chunk_file_of]. *)
Record ChunkResult `{Environment} := {
  chunk : Z;
  chunk_file_of : string;
  status : Status;
  time : float;
  result : Z
}.

(** The lines the script prints.  Timestamps and number formatting are left
    out; a line carries the values it is formatted from. *)
Inductive Out `{Environment} :=
  | ImportStarting (index total : Z) (chunk_file : string)
  | ErrorOutput (text : string)
  | ImportCompleted (st : Status) (index total : Z) (seconds : float)
  | FileDoesNotExist (path : string)
  | StartingImport
  | InputFile (path : string)
  | NumberOfChunks (n : Z)
  | Preprocessing
  | CountingLines
  | TotalLines (total_lines num_chunks chunk_size : Z)
  | CreatingChunkFiles (n : Z)
  | CreatingChunk (index total first last : Z) (chunk_file : string)
  | StartingParallelImport (n : Z)
  | JobCompleted
  | TotalChunks (n : Z)
  | SuccessfulChunks (n : Z)
  | FailedChunks (n : Z)
  | AverageTime (seconds : float)
  | DetailedResults
  | ChunkDetail (index : Z) (st : Status) (seconds : float)
  | CleaningUp
  | TempFilesKept.

(** Exceptions that can leave [main]. *)
Inductive Exn :=
  | SystemExit (code : Z)
  | ZeroDivisionError
  | ValueError
  | CalledProcessError
  | FileNotFoundError.

(** The state the script acts on: the files (as lists of lines), what has
    been printed, and the chunk files [psql] has been started on. *)
Record World `{Environment} := mkWorld {
  fs : gmap string (list string);
  stdout : list Out;
  psql_calls : list string
}.
Global Arguments mkWorld {_} _ _ _.

(** ** The monad of the script: state, and exceptions that keep the state *)

Section Script.
Context `{Environment}.

Definition M (A : Type) : Type := World → World * (Exn + A).

Global Instance M_ret : MRet M := λ A a w, (w, inr a).

Global Instance M_bind : MBind M := λ A B f m w,
  match m w with
  | (w1, inl e) => (w1, inl e)
  | (w1, inr a) => f a w1
  end.

Definition raise {A} (e : Exn) : M A := λ w, (w, inl e).

Definition print (line : Out) : M unit := λ w,
  ({| fs := fs w; stdout := stdout w ++ [line]; psql_calls := psql_calls w |},
   inr tt).

Definition sys_exit {A} (code : Z) : M A := raise (SystemExit code).

Definition os_path_exists (path : string) : M bool := λ w,
  (w, inr (bool_decide (is_Some (fs w !! path)))).

(** [os.system("sed SCRIPT SRC > DST")]: the shell creates or truncates
    [DST], then sed reads [SRC] (nothing, when it is missing) and its output
    goes to [DST].  The status of the command is ignored by the script. *)
Definition os_system_sed (script : list string → list string)
    (src dst : string) : M unit := λ w,
  let truncated := <[dst := []]> (fs w) in
  ({| fs := <[dst := script (default [] (truncated !! src))]> truncated;
      stdout := stdout w; psql_calls := psql_calls w |},
   inr tt).

(** [int(subprocess.check_output("wc -l < PATH", shell=True))]: a missing
    file makes the shell fail, and [check_output] raises. *)
Definition check_output_wc_l (path : string) : M Z := λ w,
  match fs w !! path with
  | Some lines => (w, inr (wc_l lines))
  | None => (w, inl CalledProcessError)
  end.

Definition os_remove (path : string) : M unit := λ w,
  match fs w !! path with
  | Some _ =>
      ({| fs := delete path (fs w); stdout := stdout w;
          psql_calls := psql_calls w |}, inr tt)
  | None => (w, inl FileNotFoundError)
  end.

(** [subprocess.Popen(cmd, shell=True, ...)] followed by [communicate()],
    for the [psql \copy] command of line 16 on [chunk_file]. *)
Definition popen_psql (chunk_file : string) : M (PsqlRun float) := λ w,
  ({| fs := fs w; stdout := stdout w;
      psql_calls := psql_calls w ++ [chunk_file] |},
   inr (psql chunk_file)).

(** [a // b] on Python integers: floor division, an exception on zero. *)
Definition py_floordiv (a b : Z) : M Z :=
  if bool_decide (b = 0) then raise ZeroDivisionError else mret (a `div` b).

(** [a / b] with a float [a] and an integer [b]. *)
Definition py_div (a : float) (b : Z) : M float :=
  if bool_decide (b = 0) then raise ZeroDivisionError
  else mret (py_truediv a b).

(** [for x in xs: body], where the body updates the local [acc]. *)
Fixpoint for_each {A S} (xs : list A) (body : A → S → M S) (acc : S) : M S :=
  match xs with
  | [] => mret acc
  | x :: rest => acc' ← body x acc; for_each rest body acc'
  end.

(** [with Pool(processes) as p: p.map(f, xs)].  [Pool] refuses a process
    count below 1; [map] returns the results in the order of [xs], whatever
    order the workers finish in.  The workers' progress lines are recorded
    in the order of [xs]. *)
Definition pool_map {A B} (processes : Z) (f : A → M B) (xs : list A)
    : M (list B) :=
  if bool_decide (processes < 1) then raise ValueError else mapM f xs.

(** [enumerate(xs)]. *)
Definition enumerate {A} (xs : list A) : list (Z * A) :=
  zip (seqZ 0 (Z.of_nat (length xs))) xs.

(** [sum] of a generator of Python integers. *)
Definition py_sum_int (xs : list Z) : Z := foldl Z.add 0 xs.

(** [sorted(xs, key=key)]: a stable sort into ascending key order. *)
Fixpoint insert_by {A} (key : A → Z) (x : A) (sorted : list A) : list A :=
  match sorted with
  | [] => [x]
  | y :: rest =>
      if bool_decide (key x ≤ key y) then x :: y :: rest
      else y :: insert_by key x rest
  end.

Definition py_sorted {A} (xs : list A) (key : A → Z) : list A :=
  foldr (insert_by key) [] xs.

(** ** The script *)

(** [import_chunk] (lines 10-38). *)
Definition import_chunk (args : Z * string * Z) : M ChunkResult :=
  let '(chunk_index, chunk_file, total_chunks) := args in
  print (ImportStarting (chunk_index + 1) total_chunks chunk_file);;
  process ← popen_psql chunk_file;
  let elapsed_time := elapsed process in
  let result := returncode process in
  status ← (if bool_decide (result = 0) then mret SUCCESS
            else print (ErrorOutput (stderr process));; mret FAILED);
  print (ImportCompleted status (chunk_index + 1) total_chunks elapsed_time);;
  mret {| chunk := chunk_index + 1; chunk_file_of := chunk_file;
          status := status; time := elapsed_time; result := result |}.

(** The loop of lines 75-82. *)
Definition create_chunk_files (num_chunks total_lines chunk_size : Z)
    : M (list string) :=
  for_each (seqZ 0 num_chunks) (λ i chunk_files,
    let first := chunk_start chunk_size i in
    let last := chunk_end total_lines num_chunks chunk_size i in
    let chunk_file := chunk_path i in
    print (CreatingChunk (i + 1) num_chunks first last chunk_file);;
    os_system_sed (sed_n_p first last) clean_path chunk_file;;
    mret (chunk_files ++ [chunk_file])) [].

(** Lines 55-89: preprocessing, splitting and the parallel import. *)
Definition split_and_import (args : Args)
    : M (list string * list ChunkResult) :=
  print StartingImport;;
  print (InputFile (file args));;
  print (NumberOfChunks (chunks args));;
  let num_chunks := chunks args in
  print Preprocessing;;
  os_system_sed sed_1d_lastd (file args) clean_path;;
  print CountingLines;;
  total_lines ← check_output_wc_l clean_path;
  chunk_size ← py_floordiv total_lines num_chunks;
  print (TotalLines total_lines num_chunks chunk_size);;
  print (CreatingChunkFiles num_chunks);;
  chunk_files ← create_chunk_files num_chunks total_lines chunk_size;
  print (StartingParallelImport (Z.of_nat (length chunk_files)));;
  let chunk_args :=
    (λ '(i, f), (i, f, Z.of_nat (length chunk_files)))
      <$> enumerate chunk_files in
  results ← pool_map num_chunks import_chunk chunk_args;
  mret (chunk_files, results).

Definition succeeded (r : ChunkResult) : Prop := status r = SUCCESS.

Global Instance succeeded_dec (r : ChunkResult) : Decision (succeeded r).
Proof. unfold succeeded. apply _. Defined.

(** Lines 91-121: the report and the cleanup. *)
Definition report (chunk_files : list string) (results : list ChunkResult)
    : M unit :=
  print JobCompleted;;
  let success_count := py_sum_int ((λ _, 1) <$> filter succeeded results) in
  let success_time := py_sum (time <$> filter succeeded results) in
  print (TotalChunks (Z.of_nat (length results)));;
  print (SuccessfulChunks success_count);;
  print (FailedChunks (Z.of_nat (length results) - success_count));;
  (if bool_decide (success_count > 0)
   then average ← py_div success_time success_count;
        print (AverageTime average)
   else mret tt);;
  print DetailedResults;;
  let sorted_results := py_sorted results chunk in
  for_each sorted_results (λ r _,
    print (ChunkDetail (chunk r) (status r) (time r))) tt;;
  if forallb (λ r, bool_decide (succeeded r)) results
  then print CleaningUp;;
       for_each chunk_files (λ chunk_file _, os_remove chunk_file) tt;;
       os_remove clean_path
  else print TempFilesKept.

(** [main] (lines 40-121). *)
Definition main (args : Args) : M unit :=
  file_exists ← os_path_exists (file args);
  (if negb file_exists
   then print (FileDoesNotExist (file args));; sys_exit 1
   else mret tt);;
  '(chunk_files, results) ← split_and_import args;
  report chunk_files results.

(** The exit status of the interpreter: the code given to [sys.exit], 1
    after any other uncaught exception, 0 when [main] returns. *)
Definition exit_status (outcome : Exn + unit) : Z :=
  match outcome with
  | inl (SystemExit code) => code
  | inl _ => 1
  | inr _ => 0
  end.

(** What a run has printed, from the state before and the state after. *)
Definition printed_by {A} (m : M A) (w : World) : list Out :=
  drop (length (stdout w)) (stdout (m w).1).

Definition detail_rows (lines : list Out) : list (Z * Status * float) :=
  omap (λ line, match line with
                | ChunkDetail i st t => Some (i, st, t)
                | _ => None
                end) lines.

Definition average_lines (lines : list Out) : list float :=
  omap (λ line, match line with AverageTime t => Some t | _ => None end) lines.

(** The temporary files of a run with [num_chunks] chunks. *)
Definition temp_files (num_chunks : Z) : list string :=
  clean_path :: (chunk_path <$> seqZ 0 num_chunks).

(** ** What the phases of [main] leave behind

    Closed forms of the effects of the loops, used to state what [main]
    does; each is proved equal to the run of the loop it describes. *)

(** The cleaned file written by line 65.  The shell truncates
    [/tmp/taq_clean] before sed opens the input, which matters only when
    the input is that very file. *)
Definition cleaned_of (args : Args) (files : gmap string (list string))
    : list string :=
  sed_1d_lastd (default [] (<[clean_path := []]> files !! file args)).

(** The files after the loop of lines 75-82 has run over [indices]. *)
Definition write_chunks (total_lines num_chunks chunk_size : Z)
    (cleaned : list string) (indices : list Z) (files : gmap string (list string))
    : gmap string (list string) :=
  foldl (λ files i,
    <[chunk_path i :=
        sed_n_p (chunk_start chunk_size i)
                (chunk_end total_lines num_chunks chunk_size i) cleaned]> files)
    files indices.

(** The dictionary [import_chunk] returns for a chunk. *)
Definition chunk_result_of (args : Z * string * Z) : ChunkResult :=
  let run := psql args.1.2 in
  {| chunk := args.1.1 + 1; chunk_file_of := args.1.2;
     status := if bool_decide (returncode run = 0) then SUCCESS else FAILED;
     time := elapsed run; result := returncode run |}.

(** The argument tuples of line 86 for [num_chunks] chunk files. *)
Definition chunk_args_of (num_chunks : Z) : list (Z * string * Z) :=
  (λ i, (i, chunk_path i, num_chunks)) <$> seqZ 0 num_chunks.

(** What lines 93-112 print: the banner, the summary, and the detail table
    in sorted order. *)
Definition report_lines (results : list ChunkResult) : list Out :=
  let successes := filter succeeded results in
  let success_count := Z.of_nat (length successes) in
  [JobCompleted;
   TotalChunks (Z.of_nat (length results));
   SuccessfulChunks success_count;
   FailedChunks (Z.of_nat (length results) - success_count)]
  ++ (if bool_decide (success_count > 0)
      then [AverageTime (py_truediv (py_sum (time <$> successes)) success_count)]
      else [])
  ++ [DetailedResults]
  ++ ((λ r, ChunkDetail (chunk r) (status r) (time r))
        <$> py_sorted results chunk).

(** The last line printed: which way the cleanup went. *)
Definition cleanup_line (results : list ChunkResult) : Out :=
  if forallb (λ r, bool_decide (succeeded r)) results
  then CleaningUp else TempFilesKept.

(** A result with another duration. *)
Definition with_time (t : float) (r : ChunkResult) : ChunkResult :=
  {| chunk := chunk r; chunk_file_of := chunk_file_of r; status := status r;
     time := t; result := result r |}.

(** The row of the detail table for a result. *)
Definition detail_row (r : ChunkResult) : Z * Status * float :=
  (chunk r, status r, time r).

(** The results with the durations of the failed chunks replaced. *)
Definition retime_failed (retime : ChunkResult → float)
    (results : list ChunkResult) : list ChunkResult :=
  (λ r, if decide (succeeded r) then r else with_time (retime r) r) <$> results.

(** The files once lines 65-82 have run. *)
Definition files_after_split (args : Args) (files : gmap string (list string))
    : gmap string (list string) :=
  let cleaned := cleaned_of args files in
  let total_lines := wc_l cleaned in
  let num_chunks := chunks args in
  write_chunks total_lines num_chunks (total_lines `div` num_chunks) cleaned
    (seqZ 0 num_chunks) (<[clean_path := cleaned]> files).

(** The chunk files a run has created when the import is over, if it gets
    that far. *)
Definition chunk_files_created (args : Args) (w : World)
    : option (list string) :=
  match (split_and_import args w).2 with
  | inr (chunk_files, _) => Some chunk_files
  | inl _ => None
  end.

(** The results the pool returns for [num_chunks] chunks. *)
Definition pool_results (num_chunks : Z) : list ChunkResult :=
  chunk_result_of <$> chunk_args_of num_chunks.

(** The order [sorted] puts its results in. *)
Definition key_le {A} (key : A → Z) (x y : A) : Prop := key x ≤ key y.

(** What [sed -n] writes into the chunk files of a cleaned file, in chunk
    order. *)
Definition chunk_contents (cleaned : list string) (num_chunks : Z)
    : list (list string) :=
  (λ r, sed_n_p r.1 r.2 cleaned) <$> chunk_ranges (wc_l cleaned) num_chunks.

(** The chunk files found on disk, in chunk order (a missing one reads as
    empty). *)
Definition chunk_files_on_disk (num_chunks : Z)
    (files : gmap string (list string)) : list (list string) :=
  (λ i, default [] (files !! chunk_path i)) <$> seqZ 0 num_chunks.

(** The line printed at line 80 for chunk [i]. *)
Definition creating_line (total_lines num_chunks chunk_size i : Z) : Out :=
  CreatingChunk (i + 1) num_chunks (chunk_start chunk_size i)
    (chunk_end total_lines num_chunks chunk_size i) (chunk_path i).

(** The lines one worker prints (lines 13, 27 and 29). *)
Definition worker_lines (args : Z * string * Z) : list Out :=
  let run := psql args.1.2 in
  [ImportStarting (args.1.1 + 1) args.2 args.1.2]
  ++ (if bool_decide (returncode run = 0) then []
      else [ErrorOutput (stderr run)])
  ++ [ImportCompleted (if bool_decide (returncode run = 0) then SUCCESS
                       else FAILED)
        (args.1.1 + 1) args.2 (elapsed run)].

(** What lines 56-89 print, with the workers' lines in chunk order. *)
Definition split_lines (args : Args) (files : gmap string (list string))
    : list Out :=
  let cleaned := cleaned_of args files in
  let total_lines := wc_l cleaned in
  let num_chunks := chunks args in
  let chunk_size := total_lines `div` num_chunks in
  [StartingImport; InputFile (file args); NumberOfChunks num_chunks;
   Preprocessing; CountingLines;
   TotalLines total_lines num_chunks chunk_size;
   CreatingChunkFiles num_chunks]
  ++ (creating_line total_lines num_chunks chunk_size <$> seqZ 0 num_chunks)
  ++ [StartingParallelImport num_chunks]
  ++ concat (worker_lines <$> chunk_args_of num_chunks).

(** The line ranges announced by the "Creating chunk" lines. *)
Definition printed_ranges (lines : list Out) : list (Z * Z) :=
  omap (λ line, match line with
                | CreatingChunk _ _ first last _ => Some (first, last)
                | _ => None
                end) lines.

(** The first lines of the summary: total, successful and failed chunks. *)
Definition summary_counts (lines : list Out) : list Z :=
  omap (λ line, match line with
                | TotalChunks k | SuccessfulChunks k | FailedChunks k => Some k
                | _ => None
                end) lines.

(** The error texts among the printed lines. *)
Definition error_lines (lines : list Out) : list string :=
  omap (λ line, match line with ErrorOutput t => Some t | _ => None end) lines.

(** The files after the removals of lines 117-119. *)
Definition remove_all (paths : list string) (files : gmap string (list string))
    : gmap string (list string) :=
  foldl (λ files path, delete path files) files paths.

End Script.

(** ** Concrete runs

    An environment for examples: durations are exact rationals, and [psql]
    takes half a second and succeeds, except on [/tmp/taq_chunk_1.csv],
    where it fails after three seconds. *)
Definition example_env : Environment := {|
  float := Q;
  py_sum := foldl Qplus 0%Q;
  py_truediv := λ a b, (a / inject_Z b)%Q;
  psql := λ chunk_file,
    if bool_decide (chunk_file = chunk_path 1)
    then {| returncode := 2; stderr := "ERROR:  invalid input syntax";
            elapsed := 3%Q |}
    else {| returncode := 0; stderr := ""; elapsed := (1 # 2)%Q |}
|}.

(** An environment in which every load succeeds. *)
Definition success_env : Environment := {|
  float := Q;
  py_sum := foldl Qplus 0%Q;
  py_truediv := λ a b, (a / inject_Z b)%Q;
  psql := λ _, {| returncode := 0; stderr := ""; elapsed := (1 # 2)%Q |}
|}.

(** A machine whose only file is [trades.txt] with the given lines. *)
Definition world_with `{Environment} (lines : list string) : World :=
  mkWorld {[ "trades.txt" := lines ]} [] [].

(** A TAQ file with a header, three trades and a footer. *)
Definition small_file : list string :=
  ["HEADER"; "trade 1"; "trade 2"; "trade 3"; "FOOTER"].

Definition trades_args (n : Z) : Args := {| file := "trades.txt"; chunks := n |}.

(** * Properties of the chunk boundaries *)

Section Ranges.
Implicit Types L n k i : Z.

Lemma chunk_size_bounds L n :
  1 ≤ n → 0 ≤ L →
  0 ≤ L `div` n ∧ n * (L `div` n) ≤ L < n * (L `div` n) + n.
Proof.
  intros Hn HL.
  pose proof (Z.div_mod L n ltac:(lia)) as Hdm.
  pose proof (Z.mod_pos_bound L n ltac:(lia)) as Hmod.
  pose proof (Z.div_pos L n HL ltac:(lia)). lia.
Qed.

Lemma chunk_ranges_lookup L n (i : nat) r :
  chunk_ranges L n !! i = Some r ↔
  Z.of_nat i < n ∧
  r = (chunk_start (L `div` n) (Z.of_nat i),
       chunk_end L n (L `div` n) (Z.of_nat i)).
Proof.
  unfold chunk_ranges. rewrite list_lookup_fmap, fmap_Some.
  setoid_rewrite lookup_seqZ. split.
  - intros (j & [-> Hlt] & ->). by rewrite Z.add_0_l.
  - intros [Hlt ->]. exists (Z.of_nat i). by rewrite Z.add_0_l.
Qed.

Lemma chunk_ranges_length L n : length (chunk_ranges L n) = Z.to_nat n.
Proof. unfold chunk_ranges. by rewrite length_fmap, length_seqZ. Qed.

Lemma chunk_end_inner L n cs i :
  i < n - 1 → chunk_end L n cs i = (i + 1) * cs.
Proof. intros. unfold chunk_end. by rewrite bool_decide_eq_true_2. Qed.

Lemma chunk_end_final L n cs i :
  ¬ i < n - 1 → chunk_end L n cs i = L.
Proof. intros. unfold chunk_end. by rewrite bool_decide_eq_false_2. Qed.

(** The range of chunk [i] lies inside [1, L]. *)
Lemma chunk_range_inside L n i k :
  1 ≤ n → 0 ≤ L → 0 ≤ i < n →
  chunk_start (L `div` n) i ≤ k ≤ chunk_end L n (L `div` n) i →
  1 ≤ k ≤ L.
Proof.
  intros Hn HL Hi. destruct (chunk_size_bounds L n Hn HL) as (Hcs & Hlo & Hhi).
  unfold chunk_start.
  destruct (decide (i < n - 1)) as [Hlt|Hge].
  - rewrite chunk_end_inner by done. nia.
  - rewrite chunk_end_final by done. nia.
Qed.

(** Every line of [1, L] lies in the range of some chunk. *)
Lemma chunk_range_covers L n k :
  1 ≤ n → 0 ≤ L → 1 ≤ k ≤ L →
  ∃ i, 0 ≤ i < n ∧
       chunk_start (L `div` n) i ≤ k ≤ chunk_end L n (L `div` n) i.
Proof.
  intros Hn HL Hk. destruct (chunk_size_bounds L n Hn HL) as (Hcs & Hlo & Hhi).
  set (cs := L `div` n) in *.
  destruct (decide (cs = 0)) as [Hz|Hnz].
  - exists (n - 1). split; [lia|]. unfold chunk_start.
    rewrite chunk_end_final by lia. rewrite Hz. lia.
  - pose proof (Z.div_mod (k - 1) cs Hnz) as Hdm.
    pose proof (Z.mod_pos_bound (k - 1) cs ltac:(lia)) as Hmod.
    pose proof (Z.div_pos (k - 1) cs ltac:(lia) ltac:(lia)) as Hq.
    set (q := (k - 1) `div` cs) in *.
    destruct (decide (q < n - 1)) as [Hlt|Hge].
    + exists q. split; [lia|]. unfold chunk_start.
      rewrite chunk_end_inner by done. nia.
    + exists (n - 1). split; [lia|]. unfold chunk_start.
      rewrite chunk_end_final by lia. nia.
Qed.

(** Two different chunks have no line in common. *)
Lemma chunk_range_disjoint L n i j k :
  1 ≤ n → 0 ≤ L → 0 ≤ i < j → j < n →
  chunk_start (L `div` n) i ≤ k ≤ chunk_end L n (L `div` n) i →
  chunk_start (L `div` n) j ≤ k ≤ chunk_end L n (L `div` n) j →
  False.
Proof.
  intros Hn HL Hij Hj. destruct (chunk_size_bounds L n Hn HL) as (Hcs & _ & _).
  unfold chunk_start. rewrite (chunk_end_inner L n _ i) by lia.
  intros [_ Hi] [Hk _]. nia.
Qed.

(** C1: for every chunk count [n >= 1] and line count [L], the ranges the
    splitter computes are an exact partition of [1, L].  There is one range
    per chunk; a line number lies in [1, L] exactly when some range holds
    it; no line number lies in the ranges of two different chunks; the
    first range starts at line 1, each next range starts right after the
    one before it ends, and the last range ends at line [L]. *)
Theorem chunk_ranges_partition L n :
  1 ≤ n → 0 ≤ L →
  length (chunk_ranges L n) = Z.to_nat n ∧
  (∀ k, 1 ≤ k ≤ L ↔ ∃ r, r ∈ chunk_ranges L n ∧ in_range r k) ∧
  (∀ (i j : nat) ri rj k,
     chunk_ranges L n !! i = Some ri → chunk_ranges L n !! j = Some rj →
     in_range ri k → in_range rj k → i = j) ∧
  (∃ r, chunk_ranges L n !! 0%nat = Some r ∧ r.1 = 1) ∧
  (∀ (i : nat) ri rj,
     chunk_ranges L n !! i = Some ri → chunk_ranges L n !! S i = Some rj →
     rj.1 = ri.2 + 1) ∧
  (∃ r, last (chunk_ranges L n) = Some r ∧ r.2 = L).
Proof.
  intros Hn HL. split; [apply chunk_ranges_length|].
  split; [|split; [|split; [|split]]].
  - intros k. split.
    + intros Hk. destruct (chunk_range_covers L n k Hn HL Hk) as (i & Hi & Hin).
      exists (chunk_start (L `div` n) i, chunk_end L n (L `div` n) i).
      split; [|exact Hin].
      apply list_elem_of_lookup. exists (Z.to_nat i).
      apply chunk_ranges_lookup. rewrite Z2Nat.id by lia. split; [lia|done].
    + intros (r & Hr & Hin). apply list_elem_of_lookup in Hr as [i Hi].
      apply chunk_ranges_lookup in Hi as [Hi ->].
      eapply (chunk_range_inside L n (Z.of_nat i)); [done|done|lia|exact Hin].
  - intros i j ri rj k Hi Hj Hini Hinj.
    apply chunk_ranges_lookup in Hi as [Hi ->].
    apply chunk_ranges_lookup in Hj as [Hj ->].
    unfold in_range in *; simpl in *.
    destruct (Nat.lt_total i j) as [Hlt|[Heq|Hgt]]; [|done|]; exfalso.
    + eapply (chunk_range_disjoint L n (Z.of_nat i) (Z.of_nat j) k); eauto; lia.
    + eapply (chunk_range_disjoint L n (Z.of_nat j) (Z.of_nat i) k); eauto; lia.
  - eexists. split; [apply chunk_ranges_lookup; split; [lia|done]|].
    simpl. unfold chunk_start. lia.
  - intros i ri rj Hi Hj.
    apply chunk_ranges_lookup in Hi as [Hi ->].
    apply chunk_ranges_lookup in Hj as [Hj ->]. simpl.
    unfold chunk_start. rewrite chunk_end_inner by lia. lia.
  - eexists. split.
    + rewrite last_lookup, chunk_ranges_length.
      apply chunk_ranges_lookup. split; [lia|done].
    + simpl. apply chunk_end_final. lia.
Qed.


End Ranges.

(** * Properties of the text tools and of the paths *)

Lemma sed_n_p_from_after (a b k : Z) (lines : list string) :
  a < k → sed_n_p_from a b k lines = take (Z.to_nat (b - k + 1)) lines.
Proof.
  revert k. induction lines as [|l rest IH]; intros k Hk; simpl.
  - by rewrite take_nil.
  - rewrite IH by lia. case_bool_decide as Hc.
    + replace (Z.to_nat (b - k + 1)) with (S (Z.to_nat (b - (k + 1) + 1))) by lia.
      done.
    + replace (Z.to_nat (b - k + 1)) with 0%nat by lia.
      replace (Z.to_nat (b - (k + 1) + 1)) with 0%nat by lia.
      by rewrite take_0.
Qed.

Lemma sed_n_p_from_before (a b k : Z) (lines : list string) :
  k ≤ a →
  sed_n_p_from a b k lines =
    take (Z.to_nat (Z.max 1 (b - a + 1))) (drop (Z.to_nat (a - k)) lines).
Proof.
  revert k. induction lines as [|l rest IH]; intros k Hk; simpl.
  - by rewrite drop_nil, take_nil.
  - case_bool_decide as Hc.
    + assert (k = a) as -> by lia.
      rewrite sed_n_p_from_after by lia.
      replace (Z.to_nat (a - a)) with 0%nat by lia. rewrite drop_0.
      replace (Z.to_nat (Z.max 1 (b - a + 1)))
        with (S (Z.to_nat (b - (a + 1) + 1))) by lia.
      done.
    + rewrite IH by lia.
      replace (Z.to_nat (a - k)) with (S (Z.to_nat (a - (k + 1)))) by lia.
      done.
Qed.

(** What [sed -n 'a,bp'] prints, for a first address [a >= 1]: the lines
    from [a] on, [b - a + 1] of them, and one of them when [b < a]. *)
Lemma sed_n_p_take_drop (a b : Z) (lines : list string) :
  1 ≤ a →
  sed_n_p a b lines =
    take (Z.to_nat (Z.max 1 (b - a + 1))) (drop (Z.to_nat (a - 1)) lines).
Proof. intros. unfold sed_n_p. by rewrite sed_n_p_from_before by lia. Qed.

(** A range inside the file is printed in full. *)
Lemma sed_n_p_length (a b : Z) (lines : list string) :
  1 ≤ a → a ≤ b → b ≤ wc_l lines →
  wc_l (sed_n_p a b lines) = b - a + 1.
Proof.
  intros Ha Hab Hb. unfold wc_l in *. rewrite sed_n_p_take_drop by done.
  rewrite length_take, length_drop. lia.
Qed.

(** An empty range [a, a - 1] still prints line [a]. *)
Lemma sed_n_p_empty_range (b : Z) (l : string) (rest : list string) :
  b < 1 → sed_n_p 1 b (l :: rest) = [l].
Proof.
  intros Hb. rewrite sed_n_p_take_drop by lia.
  replace (Z.to_nat (Z.max 1 (b - 1 + 1))) with 1%nat by lia.
  by rewrite drop_0.
Qed.

(** The whole file is printed by the range [1, L]. *)
Lemma sed_n_p_whole (lines : list string) :
  1 ≤ wc_l lines → sed_n_p 1 (wc_l lines) lines = lines.
Proof.
  intros HL. unfold wc_l in *. rewrite sed_n_p_take_drop by lia.
  rewrite drop_0. apply take_ge. lia.
Qed.

(** The chunk files of the chunks before the last, laid end to end. *)
Lemma inner_chunks_concat (cs : Z) (cleaned : list string) (k : nat) :
  1 ≤ cs →
  concat ((λ i, sed_n_p (chunk_start cs i) ((i + 1) * cs) cleaned)
            <$> seqZ 0 (Z.of_nat k)) =
    take (Z.to_nat (Z.of_nat k * cs)) cleaned.
Proof.
  intros Hcs. induction k as [|k IH].
  - by rewrite seqZ_nil by lia.
  - rewrite seqZ_S, fmap_app, concat_app, IH. simpl. rewrite app_nil_r.
    unfold chunk_start. rewrite sed_n_p_take_drop by lia.
    replace (Z.to_nat (Z.max 1 ((0 + Z.of_nat k + 1) * cs
                                - ((0 + Z.of_nat k) * cs + 1) + 1)))
      with (Z.to_nat cs) by nia.
    replace (Z.to_nat ((0 + Z.of_nat k) * cs + 1 - 1))
      with (Z.to_nat (Z.of_nat k * cs)) by lia.
    rewrite take_take_drop. f_equal. nia.
Qed.

(** When the cleaned file has at least as many lines as there are chunks,
    the chunk files laid end to end are the cleaned file. *)
Lemma chunk_files_concat (cleaned : list string) (n : Z) :
  1 ≤ n ≤ wc_l cleaned →
  concat ((λ r, sed_n_p r.1 r.2 cleaned) <$> chunk_ranges (wc_l cleaned) n) =
    cleaned.
Proof.
  intros Hn. set (L := wc_l cleaned) in *.
  destruct (chunk_size_bounds L n ltac:(lia) ltac:(lia)) as (_ & Hlo & Hhi).
  assert (Hcs : 1 ≤ L `div` n) by nia.
  unfold chunk_ranges. rewrite <- list_fmap_compose.
  assert (Hseq : seqZ 0 n = seqZ 0 (n - 1) ++ [n - 1]).
  { replace (seqZ 0 n) with (seqZ 0 ((n - 1) + 1)) by (f_equal; lia).
    by rewrite seqZ_app by lia. }
  rewrite Hseq, fmap_app, concat_app.
  rewrite (Forall_fmap_ext_1 _
             (λ i, sed_n_p (chunk_start (L `div` n) i) ((i + 1) * (L `div` n))
                     cleaned)).
  2:{ apply Forall_seqZ. intros i Hi. simpl.
      by rewrite chunk_end_inner by lia. }
  replace (n - 1) with (Z.of_nat (Z.to_nat (n - 1))) at 1 by lia.
  rewrite inner_chunks_concat by done.
  simpl. rewrite app_nil_r.
  rewrite chunk_end_final by lia. unfold chunk_start.
  rewrite sed_n_p_take_drop by nia.
  rewrite Z2Nat.id by lia.
  replace ((n - 1) * (L `div` n) + 1 - 1) with ((n - 1) * (L `div` n)) by lia.
  rewrite (take_ge (drop _ _)).
  - apply take_drop.
  - rewrite length_drop. unfold L, wc_l in *. nia.
Qed.

Lemma string_app_length (s t : string) :
  String.length (s +:+ t) = (String.length s + String.length t)%nat.
Proof. induction s as [|a s IH]; simpl; [done|by rewrite IH]. Qed.

Lemma string_app_inj_r (s1 s2 t : string) : s1 +:+ t = s2 +:+ t → s1 = s2.
Proof.
  revert s2. induction s1 as [|a s1 IH]; intros [|b s2] Heq; simpl in *.
  - done.
  - apply (f_equal String.length) in Heq.
    rewrite !string_app_length in Heq. simpl in Heq. lia.
  - apply (f_equal String.length) in Heq.
    rewrite !string_app_length in Heq. simpl in Heq. lia.
  - injection Heq as -> Heq. f_equal. by apply IH.
Qed.

(** Chunk files of different indices have different paths, and none of
    them is the path of the cleaned file. *)
Global Instance chunk_path_inj : Inj (=) (=) chunk_path.
Proof.
  intros i j Heq. unfold chunk_path in Heq.
  apply String.app_inj, string_app_inj_r in Heq. by apply (inj pretty).
Qed.

Lemma chunk_path_ne_clean (i : Z) : chunk_path i ≠ clean_path.
Proof. unfold chunk_path, clean_path. simpl. intros Heq. discriminate Heq. Qed.

Lemma NoDup_chunk_paths (n : Z) : NoDup (chunk_path <$> seqZ 0 n).
Proof. apply (NoDup_fmap_2 _), NoDup_seqZ. Qed.

Lemma NoDup_temp_files (n : Z) : NoDup (temp_files n).
Proof.
  unfold temp_files. apply NoDup_cons. split; [|apply NoDup_chunk_paths].
  intros Hin. apply list_elem_of_fmap in Hin as (i & Heq & _).
  by eapply chunk_path_ne_clean.
Qed.

(** * Running the phases of [main] *)

Section Runs.
Context `{Environment}.
Implicit Types (m : gmap string (list string)) (o : list Out) (c : list string).

Lemma bind_run {A B} (f : A → M B) (x : M A) (w : World) :
  (x ≫= f) w =
    match x w with
    | (w1, inl e) => (w1, inl e)
    | (w1, inr a) => f a w1
    end.
Proof. reflexivity. Qed.

Lemma bind_returns {A B} (f : A → M B) (x : M A) (w w1 : World) (a : A) :
  x w = (w1, inr a) → (x ≫= f) w = f a w1.
Proof. intros Hx. by rewrite bind_run, Hx. Qed.

Lemma bind_raises {A B} (f : A → M B) (x : M A) (w w1 : World) (e : Exn) :
  x w = (w1, inl e) → (x ≫= f) w = (w1, inl e).
Proof. intros Hx. by rewrite bind_run, Hx. Qed.

Lemma print_bind {B} (line : Out) (k : unit → M B) m o c :
  (print line ≫= k) (mkWorld m o c) = k tt (mkWorld m (o ++ [line]) c).
Proof. reflexivity. Qed.

Lemma os_system_sed_bind {B} script src dst (k : unit → M B) m o c :
  (os_system_sed script src dst ≫= k) (mkWorld m o c) =
    k tt (mkWorld
            (<[dst := script (default [] (<[dst := []]> m !! src))]>
               (<[dst := []]> m)) o c).
Proof. reflexivity. Qed.

Lemma check_output_wc_l_bind {B} path lines (k : Z → M B) m o c :
  m !! path = Some lines →
  (check_output_wc_l path ≫= k) (mkWorld m o c) =
    k (wc_l lines) (mkWorld m o c).
Proof.
  intros Hpath. apply bind_returns. unfold check_output_wc_l; simpl.
  by rewrite Hpath.
Qed.

Lemma py_floordiv_bind {B} (a b : Z) (k : Z → M B) (w : World) :
  b ≠ 0 → (py_floordiv a b ≫= k) w = k (a `div` b) w.
Proof.
  intros Hb. apply bind_returns. unfold py_floordiv.
  by rewrite bool_decide_eq_false_2.
Qed.

(** One [sed ... > dst] command whose input is another file. *)
Lemma os_system_sed_run script src dst content m o c :
  src ≠ dst → m !! src = Some content →
  os_system_sed script src dst (mkWorld m o c) =
    (mkWorld (<[dst := script content]> m) o c, inr tt).
Proof.
  intros Hne Hsrc. unfold os_system_sed; simpl.
  rewrite lookup_insert_ne, Hsrc by done. simpl.
  by rewrite insert_insert_eq.
Qed.

Lemma write_chunks_snoc L n cs cleaned indices i m :
  write_chunks L n cs cleaned (indices ++ [i]) m =
    <[chunk_path i :=
        sed_n_p (chunk_start cs i) (chunk_end L n cs i) cleaned]>
      (write_chunks L n cs cleaned indices m).
Proof. unfold write_chunks. by rewrite foldl_app. Qed.

(** Files other than the chunk files are left alone by the loop. *)
Lemma write_chunks_lookup_other L n cs cleaned indices m path :
  path ∉ chunk_path <$> indices →
  write_chunks L n cs cleaned indices m !! path = m !! path.
Proof.
  induction indices as [|i indices IH] using rev_ind; [done|].
  rewrite fmap_app, not_elem_of_app. simpl. intros [Hl Hi].
  rewrite write_chunks_snoc, lookup_insert_ne; [by apply IH|].
  intros <-. apply Hi. by left.
Qed.

(** Each chunk file holds what [sed -n] printed for its range. *)
Lemma write_chunks_lookup_chunk L n cs cleaned indices m i :
  NoDup indices → i ∈ indices →
  write_chunks L n cs cleaned indices m !! chunk_path i =
    Some (sed_n_p (chunk_start cs i) (chunk_end L n cs i) cleaned).
Proof.
  induction indices as [|j indices IH] using rev_ind; [by intros _ ?%elem_of_nil|].
  rewrite NoDup_app, elem_of_app, list_elem_of_singleton.
  intros (Hnd & Hdisj & _) Hin. rewrite write_chunks_snoc.
  destruct (decide (i = j)) as [->|Hne].
  - by rewrite lookup_insert_eq.
  - rewrite lookup_insert_ne by (intros Heq; by apply (inj chunk_path) in Heq).
    apply IH; [done|]. by destruct Hin.
Qed.

(** The loop of lines 75-82, started with any list [acc] of chunk files. *)
Lemma chunk_loop_run L n cs cleaned indices acc m o c :
  m !! clean_path = Some cleaned →
  ∃ o',
    for_each indices (λ i chunk_files,
      let first := chunk_start cs i in
      let last := chunk_end L n cs i in
      let chunk_file := chunk_path i in
      print (CreatingChunk (i + 1) n first last chunk_file);;
      os_system_sed (sed_n_p first last) clean_path chunk_file;;
      mret (chunk_files ++ [chunk_file])) acc (mkWorld m o c) =
    (mkWorld (write_chunks L n cs cleaned indices m) o' c,
     inr (acc ++ (chunk_path <$> indices))).
Proof.
  revert acc m o. induction indices as [|i indices IH]; intros acc m o Hclean.
  - exists o. simpl. by rewrite app_nil_r.
  - simpl. rewrite bind_run. rewrite bind_run. unfold print at 1. simpl.
    rewrite lookup_insert_ne, Hclean by apply chunk_path_ne_clean. simpl.
    rewrite insert_insert_eq.
    destruct (IH (acc ++ [chunk_path i])
                (<[chunk_path i :=
                     sed_n_p (chunk_start cs i) (chunk_end L n cs i) cleaned]> m)
                (o ++ [CreatingChunk (i + 1) n (chunk_start cs i)
                         (chunk_end L n cs i) (chunk_path i)]))
      as [o' Hrun].
    { rewrite lookup_insert_ne by apply chunk_path_ne_clean. exact Hclean. }
    exists o'. rewrite <- app_assoc in Hrun. exact Hrun.
Qed.

Lemma create_chunk_files_run n L cs cleaned m o c :
  m !! clean_path = Some cleaned →
  ∃ o',
    create_chunk_files n L cs (mkWorld m o c) =
    (mkWorld (write_chunks L n cs cleaned (seqZ 0 n) m) o' c,
     inr (chunk_path <$> seqZ 0 n)).
Proof.
  intros Hclean. unfold create_chunk_files.
  destruct (chunk_loop_run L n cs cleaned (seqZ 0 n) [] m o c Hclean)
    as [o' Hrun].
  exists o'. exact Hrun.
Qed.

(** One worker. *)
Lemma import_chunk_run args m o c :
  ∃ o',
    import_chunk args (mkWorld m o c) =
    (mkWorld m o' (c ++ [args.1.2]), inr (chunk_result_of args)).
Proof.
  destruct args as [[i f] total]. unfold import_chunk, chunk_result_of; simpl.
  unfold mbind, M_bind, print, popen_psql; simpl.
  case_bool_decide; simpl; eexists; reflexivity.
Qed.

(** The pool: one [psql] per argument tuple, in order, and the files are
    not touched. *)
Lemma import_all_run (xs : list (Z * string * Z)) m o c :
  ∃ o',
    mapM import_chunk xs (mkWorld m o c) =
    (mkWorld m o' (c ++ ((λ x, x.1.2) <$> xs)), inr (chunk_result_of <$> xs)).
Proof.
  revert o c. induction xs as [|x xs IH]; intros o c.
  - exists o. simpl. by rewrite app_nil_r.
  - simpl. rewrite bind_run.
    destruct (import_chunk_run x m o c) as [o1 ->].
    rewrite bind_run. destruct (IH o1 (c ++ [x.1.2])) as [o2 ->].
    exists o2. simpl. by rewrite <- app_assoc.
Qed.

Lemma zip_fmap_diag {A B} (f : A → B) (l : list A) :
  zip l (f <$> l) = (λ x, (x, f x)) <$> l.
Proof. induction l as [|x l IH]; csimpl; [done|by rewrite IH]. Qed.

(** The argument tuples built at line 86 from the chunk files of the loop. *)
Lemma enumerate_chunk_paths (n : Z) :
  0 ≤ n →
  (λ '(i, f), (i, f, Z.of_nat (length (chunk_path <$> seqZ 0 n))))
    <$> enumerate (chunk_path <$> seqZ 0 n) =
  chunk_args_of n.
Proof.
  intros Hn. unfold enumerate, chunk_args_of.
  rewrite length_fmap, length_seqZ, Z2Nat.id by lia.
  rewrite zip_fmap_diag, <- list_fmap_compose. done.
Qed.

Lemma chunk_args_paths (n : Z) :
  (λ x : Z * string * Z, x.1.2) <$> chunk_args_of n = chunk_path <$> seqZ 0 n.
Proof. unfold chunk_args_of. by rewrite <- list_fmap_compose. Qed.

(** Lines 55-89 for an existing input and at least one chunk: the cleaned
    file and the chunk files are written, one [psql] is started on each
    chunk file, and the results come back in chunk order. *)
Lemma split_and_import_run args m o c :
  1 ≤ chunks args →
  let cleaned := cleaned_of args m in
  let L := wc_l cleaned in
  let n := chunks args in
  ∃ o',
    split_and_import args (mkWorld m o c) =
    (mkWorld (write_chunks L n (L `div` n) cleaned (seqZ 0 n)
                (<[clean_path := cleaned]> m))
             o' (c ++ (chunk_path <$> seqZ 0 n)),
     inr (chunk_path <$> seqZ 0 n, chunk_result_of <$> chunk_args_of n)).
Proof.
  intros Hn cleaned L n. unfold split_and_import.
  rewrite !print_bind, os_system_sed_bind, insert_insert_eq, print_bind.
  fold (cleaned_of args m). fold cleaned.
  rewrite (check_output_wc_l_bind _ cleaned) by apply lookup_insert_eq.
  fold L. rewrite py_floordiv_bind by lia. fold n. rewrite !print_bind.
  edestruct (create_chunk_files_run n L (L `div` n) cleaned
               (<[clean_path := cleaned]> m)) as [o1 Hloop];
    [apply lookup_insert_eq|].
  erewrite bind_returns by exact Hloop. rewrite print_bind.
  rewrite enumerate_chunk_paths by lia.
  unfold pool_map. rewrite bool_decide_eq_false_2 by lia.
  edestruct (import_all_run (chunk_args_of n)) as [o2 Himport].
  erewrite bind_returns by exact Himport.
  rewrite chunk_args_paths. by exists o2.
Qed.

(** Line 70 with [--chunks 0]: the cleaned file is on disk, nothing else
    has been written, and the division raises. *)
Lemma split_and_import_zero args m o c :
  chunks args = 0 →
  ∃ o',
    split_and_import args (mkWorld m o c) =
    (mkWorld (<[clean_path := cleaned_of args m]> m) o' c,
     inl ZeroDivisionError).
Proof.
  intros Hn. unfold split_and_import.
  rewrite !print_bind, os_system_sed_bind, insert_insert_eq, print_bind.
  fold (cleaned_of args m).
  rewrite (check_output_wc_l_bind _ (cleaned_of args m))
    by apply lookup_insert_eq.
  eexists. apply bind_raises. unfold py_floordiv.
  by rewrite bool_decide_eq_true_2.
Qed.

(** A negative [--chunks] gets past the division and the empty loop, and
    [Pool] refuses it. *)
Lemma split_and_import_negative args m o c :
  chunks args < 0 →
  ∃ o',
    split_and_import args (mkWorld m o c) =
    (mkWorld (<[clean_path := cleaned_of args m]> m) o' c, inl ValueError).
Proof.
  intros Hn. unfold split_and_import.
  rewrite !print_bind, os_system_sed_bind, insert_insert_eq, print_bind.
  fold (cleaned_of args m).
  rewrite (check_output_wc_l_bind _ (cleaned_of args m))
    by apply lookup_insert_eq.
  rewrite py_floordiv_bind by lia. rewrite !print_bind.
  unfold create_chunk_files. rewrite seqZ_nil by lia. simpl.
  rewrite bind_run. simpl. rewrite print_bind.
  eexists. apply bind_raises. unfold pool_map.
  by rewrite bool_decide_eq_true_2 by lia.
Qed.

(** ** The report *)

Lemma py_sum_int_ones {A} (l : list A) :
  py_sum_int ((λ _, 1) <$> l) = Z.of_nat (length l).
Proof.
  unfold py_sum_int. enough (∀ a, foldl Z.add a ((λ _, 1) <$> l)
                                  = a + Z.of_nat (length l)) as -> by done.
  induction l as [|x l IH]; intros a; csimpl; [lia|]. rewrite IH. lia.
Qed.

Lemma detail_loop_run (rs : list ChunkResult) m o c :
  for_each rs (λ r _, print (ChunkDetail (chunk r) (status r) (time r))) tt
    (mkWorld m o c) =
  (mkWorld m (o ++ ((λ r, ChunkDetail (chunk r) (status r) (time r)) <$> rs)) c,
   inr tt).
Proof.
  revert o. induction rs as [|r rs IH]; intros o; csimpl.
  - by rewrite app_nil_r.
  - rewrite print_bind, IH. by rewrite <- app_assoc.
Qed.

(** Lines 93-112 print [report_lines]; what is left to run is the cleanup
    of lines 115-121. *)
Lemma report_run chunk_files results m o c :
  report chunk_files results (mkWorld m o c) =
  (if forallb (λ r, bool_decide (succeeded r)) results
   then print CleaningUp;;
        for_each chunk_files (λ chunk_file _, os_remove chunk_file) tt;;
        os_remove clean_path
   else print TempFilesKept) (mkWorld m (o ++ report_lines results) c).
Proof.
  unfold report, report_lines. rewrite py_sum_int_ones. rewrite !print_bind.
  case_bool_decide as Hpos.
  - unfold py_div. rewrite bool_decide_eq_false_2 by lia.
    rewrite bind_run. simpl. rewrite print_bind.
    erewrite bind_returns by apply detail_loop_run.
    repeat (rewrite <- app_assoc; simpl). done.
  - rewrite bind_run. simpl. rewrite print_bind.
    erewrite bind_returns by apply detail_loop_run.
    repeat (rewrite <- app_assoc; simpl). done.
Qed.

(** The removals of lines 117-119 go through when the files are there. *)
Lemma remove_loop_run (paths : list string) m o c :
  NoDup paths → (∀ path, path ∈ paths → is_Some (m !! path)) →
  for_each paths (λ chunk_file _, os_remove chunk_file) tt (mkWorld m o c) =
  (mkWorld (remove_all paths m) o c, inr tt).
Proof.
  revert m. induction paths as [|p paths IH]; intros m Hnd Hall; [done|].
  apply NoDup_cons in Hnd as [Hp Hnd].
  destruct (Hall p ltac:(left)) as [content Hcontent].
  cbn [for_each]. rewrite bind_run. unfold os_remove at 1; simpl.
  rewrite Hcontent. apply IH; [done|].
  intros q Hq. rewrite lookup_delete_ne; [apply Hall; by right|].
  intros ->. done.
Qed.

Lemma remove_all_lookup_other (paths : list string) m path :
  path ∉ paths → remove_all paths m !! path = m !! path.
Proof.
  revert m. induction paths as [|p paths IH]; intros m Hnotin; [done|].
  apply not_elem_of_cons in Hnotin as [Hne Hnotin].
  unfold remove_all in *. simpl. rewrite IH by done.
  by apply lookup_delete_ne.
Qed.

Lemma remove_all_lookup (paths : list string) m path :
  path ∈ paths → remove_all paths m !! path = None.
Proof.
  revert m. induction paths as [|p paths IH]; intros m Hin.
  - by apply elem_of_nil in Hin.
  - unfold remove_all in *. simpl.
    destruct (decide (path ∈ paths)) as [Hin'|Hnotin]; [by apply IH|].
    apply elem_of_cons in Hin as [->|Hin]; [|done].
    fold (remove_all paths (delete p m)).
    rewrite remove_all_lookup_other by done. apply lookup_delete_eq.
Qed.

(** The cleanup, started where every temporary file exists. *)
Lemma cleanup_run (chunk_files : list string) m o c :
  NoDup chunk_files → clean_path ∉ chunk_files →
  (∀ path, path ∈ clean_path :: chunk_files → is_Some (m !! path)) →
  (print CleaningUp;;
   for_each chunk_files (λ chunk_file _, os_remove chunk_file) tt;;
   os_remove clean_path) (mkWorld m o c) =
  (mkWorld (delete clean_path (remove_all chunk_files m)) (o ++ [CleaningUp]) c,
   inr tt).
Proof.
  intros Hnd Hclean Hall. rewrite print_bind.
  erewrite bind_returns.
  2:{ apply remove_loop_run; [done|]. intros p Hp. apply Hall. by right. }
  unfold os_remove; simpl.
  rewrite remove_all_lookup_other by done.
  by destruct (Hall clean_path ltac:(left)) as [content ->].
Qed.

(** Removing files prints nothing and can only fail on a missing file. *)
Lemma remove_loop_quiet (paths : list string) (w : World) :
  let run := for_each paths (λ chunk_file _, os_remove chunk_file) tt w in
  stdout run.1 = stdout w ∧ psql_calls run.1 = psql_calls w ∧
  (run.2 = inr tt ∨ run.2 = inl FileNotFoundError).
Proof.
  revert w. induction paths as [|p paths IH]; intros w; [simpl; auto|].
  cbv zeta. cbn [for_each]. rewrite bind_run.
  destruct (os_remove p w) as [w1 [e|[]]] eqn:Hrm;
    unfold os_remove in Hrm; destruct (fs w !! p); simplify_eq; simpl; auto.
  apply (IH (mkWorld (delete p (fs w)) (stdout w) (psql_calls w))).
Qed.

(** Everything [report] prints, whatever becomes of the cleanup. *)
Lemma report_stdout chunk_files results (w : World) :
  stdout (report chunk_files results w).1 =
    stdout w ++ report_lines results ++ [cleanup_line results].
Proof.
  destruct w as [m o c]. rewrite report_run. unfold cleanup_line. simpl.
  destruct (forallb _ results).
  - rewrite print_bind, bind_run.
    pose proof (remove_loop_quiet chunk_files
                  (mkWorld m ((o ++ report_lines results) ++ [CleaningUp]) c))
      as (Hout & _ & Hres).
    simpl in Hout, Hres.
    destruct (for_each chunk_files _ tt _) as [w1 [e|[]]]; simpl in *.
    + by rewrite Hout, <- app_assoc.
    + unfold os_remove. destruct (fs w1 !! clean_path); simpl;
        by rewrite Hout, <- app_assoc.
  - unfold print; simpl. by rewrite <- app_assoc.
Qed.

(** [report] starts no loader, and no division by zero leaves it: the only
    exception it can end in is a file missing at cleanup. *)
Lemma report_outcome chunk_files results (w : World) :
  psql_calls (report chunk_files results w).1 = psql_calls w ∧
  ((report chunk_files results w).2 = inr tt ∨
   (report chunk_files results w).2 = inl FileNotFoundError).
Proof.
  destruct w as [m o c]. rewrite report_run.
  destruct (forallb _ results).
  - rewrite print_bind, bind_run.
    pose proof (remove_loop_quiet chunk_files
                  (mkWorld m ((o ++ report_lines results) ++ [CleaningUp]) c))
      as (_ & Hcalls & Hres).
    simpl in Hcalls, Hres.
    destruct (for_each chunk_files _ tt _) as [w1 [e|[]]]; simpl in *.
    + destruct Hres as [?|?]; [done|auto].
    + unfold os_remove. destruct (fs w1 !! clean_path); simpl; auto.
  - unfold print; simpl. auto.
Qed.

Lemma printed_by_report chunk_files results (w : World) :
  printed_by (report chunk_files results) w =
    report_lines results ++ [cleanup_line results].
Proof. unfold printed_by. by rewrite report_stdout, drop_app_length. Qed.

End Runs.

(** * [sorted]: a stable sort into ascending key order *)

Section Sorting.
Context {A : Type} (key : A → Z).
Implicit Types (x y : A) (l : list A).

Lemma insert_by_Permutation x l : insert_by key x l ≡ₚ x :: l.
Proof.
  induction l as [|y l IH]; simpl; [done|].
  case_bool_decide; [done|]. by rewrite IH, Permutation_swap.
Qed.

Lemma py_sorted_Permutation l : py_sorted l key ≡ₚ l.
Proof.
  unfold py_sorted. induction l as [|x l IH]; simpl; [done|].
  by rewrite insert_by_Permutation, IH.
Qed.

Lemma insert_by_sorted x l :
  StronglySorted (key_le key) l → StronglySorted (key_le key) (insert_by key x l).
Proof.
  induction l as [|y l IH]; simpl; intros Hsorted.
  - by repeat constructor.
  - pose proof Hsorted as Hyl.
    apply StronglySorted_cons in Hyl as [Hy Hl]. case_bool_decide as Hle.
    + apply SSorted_cons; [done|]. constructor; [done|].
      eapply Forall_impl; [exact Hy|]. unfold key_le. intros; lia.
    + apply SSorted_cons; [by apply IH|].
      rewrite insert_by_Permutation. constructor; [unfold key_le; lia|done].
Qed.

Lemma py_sorted_sorted l : StronglySorted (key_le key) (py_sorted l key).
Proof.
  unfold py_sorted. induction l as [|x l IH]; simpl; [constructor|].
  by apply insert_by_sorted.
Qed.

(** Stability: results with the same key keep their order. *)
Lemma insert_by_filter_key x l (k : Z) :
  filter (λ y, key y = k) (insert_by key x l) =
  filter (λ y, key y = k) (x :: l).
Proof.
  induction l as [|y l IH]; simpl; [done|].
  case_bool_decide as Hle; [done|].
  rewrite !filter_cons in *. rewrite IH.
  repeat case_decide; try done; lia.
Qed.

Lemma py_sorted_stable l (k : Z) :
  filter (λ y, key y = k) (py_sorted l key) = filter (λ y, key y = k) l.
Proof.
  unfold py_sorted. induction l as [|x l IH]; simpl; [done|].
  rewrite insert_by_filter_key, !filter_cons, IH. done.
Qed.

Lemma py_sorted_keys_sorted l : StronglySorted Z.le (key <$> py_sorted l key).
Proof.
  eapply StronglySorted_fmap; [|apply py_sorted_sorted]. by unfold key_le.
Qed.

End Sorting.

Lemma seqZ_sorted (m n : Z) : StronglySorted Z.le (seqZ m n).
Proof.
  destruct (decide (0 ≤ n)) as [Hn|Hn]; [|rewrite seqZ_nil by lia; constructor].
  revert m. pattern n. apply natlike_ind; [| |done].
  - intros m. rewrite seqZ_nil by lia. constructor.
  - intros k Hk IH m. rewrite seqZ_cons by lia.
    replace (Z.pred (Z.succ k)) with k by lia.
    apply SSorted_cons; [apply IH|].
    apply Forall_seqZ. intros; lia.
Qed.

(** * [main] from start to end *)

Section Main.
Context `{Environment}.
Implicit Types (m : gmap string (list string)) (o : list Out) (c : list string).


Lemma main_existing_file args m o c :
  is_Some (m !! file args) →
  main args (mkWorld m o c) =
    ('(chunk_files, results) ← split_and_import args;
     report chunk_files results) (mkWorld m o c).
Proof.
  intros Hfile. unfold main, os_path_exists. rewrite bind_run. simpl.
  by rewrite bool_decide_eq_true_2.
Qed.

(** After the split every temporary file is on disk. *)
Lemma files_after_split_clean args m :
  files_after_split args m !! clean_path = Some (cleaned_of args m).
Proof.
  unfold files_after_split. rewrite write_chunks_lookup_other.
  - apply lookup_insert_eq.
  - intros (i & Heq & _)%list_elem_of_fmap. by eapply chunk_path_ne_clean.
Qed.

Lemma files_after_split_chunk args m i :
  0 ≤ i < chunks args →
  let cleaned := cleaned_of args m in
  let L := wc_l cleaned in
  files_after_split args m !! chunk_path i =
    Some (sed_n_p (chunk_start (L `div` chunks args) i)
            (chunk_end L (chunks args) (L `div` chunks args) i) cleaned).
Proof.
  intros Hi. unfold files_after_split.
  apply write_chunks_lookup_chunk; [apply NoDup_seqZ|].
  apply elem_of_seqZ. lia.
Qed.


Lemma temp_files_exist_after_split args m path :
  path ∈ temp_files (chunks args) →
  is_Some (files_after_split args m !! path).
Proof.
  unfold temp_files. intros [->|Hin]%elem_of_cons.
  - rewrite files_after_split_clean. by eexists.
  - apply list_elem_of_fmap in Hin as (i & -> & Hi%elem_of_seqZ).
    rewrite files_after_split_chunk by lia. by eexists.
Qed.

Lemma pool_results_length (n : Z) : length (pool_results n) = Z.to_nat n.
Proof.
  unfold pool_results, chunk_args_of. by rewrite !length_fmap, length_seqZ.
Qed.

(** The whole of [main] on an existing input with at least one chunk: it
    returns, and the temporary files are gone or all there according to
    the results. *)
Lemma main_run args m o c :
  is_Some (m !! file args) → 1 ≤ chunks args →
  let n := chunks args in
  let files := files_after_split args m in
  ∃ o',
    main args (mkWorld m o c) =
    (mkWorld
       (if forallb (λ r, bool_decide (succeeded r)) (pool_results n)
        then delete clean_path (remove_all (chunk_path <$> seqZ 0 n) files)
        else files)
       o' (c ++ (chunk_path <$> seqZ 0 n)),
     inr tt).
Proof.
  intros Hfile Hn n files. rewrite main_existing_file by done.
  destruct (split_and_import_run args m o c Hn) as [o1 Hsplit].
  erewrite bind_returns by exact Hsplit. simpl.
  fold n (files_after_split args m) files (pool_results n).
  rewrite report_run. destruct (forallb _ (pool_results n)).
  - rewrite cleanup_run; [by eexists|apply NoDup_chunk_paths| |].
    + pose proof (NoDup_temp_files n) as Hnd. unfold temp_files in Hnd.
      by apply NoDup_cons in Hnd as [? _].
    + intros p Hp. by apply temp_files_exist_after_split.
  - unfold print; simpl. by eexists.
Qed.

End Main.

(** * The claims about a whole run *)

Section Claims.
Context `{Environment}.

Lemma all_succeeded_Forall (results : list ChunkResult) :
  forallb (λ r, bool_decide (succeeded r)) results = true ↔
  Forall succeeded results.
Proof.
  rewrite <- Is_true_true, forallb_True. apply Forall_proper; [|done].
  intros r. by rewrite bool_decide_spec.
Qed.

(** C2: once the workers are done, the temporary files (the cleaned file
    and every chunk file) are deleted if and only if every chunk result is
    a success; if some chunk failed, every one of them, the cleaned file
    included, is still there with its content. *)
Theorem temp_files_deleted_iff_all_succeeded (args : Args) (w : World) :
  is_Some (fs w !! file args) → 1 ≤ chunks args →
  let n := chunks args in
  ∃ (w1 : World) (results : list ChunkResult),
    split_and_import args w = (w1, inr (chunk_path <$> seqZ 0 n, results)) ∧
    main args w = report (chunk_path <$> seqZ 0 n) results w1 ∧
    length results = Z.to_nat n ∧
    (∀ path, path ∈ temp_files n → is_Some (fs w1 !! path)) ∧
    ((∀ path, path ∈ temp_files n → fs (main args w).1 !! path = None) ↔
     Forall succeeded results) ∧
    (¬ Forall succeeded results →
     ∀ path, path ∈ temp_files n →
       is_Some (fs (main args w).1 !! path) ∧
       fs (main args w).1 !! path = fs w1 !! path).
Proof.
  destruct w as [m o c]. simpl. intros Hfile Hn.
  destruct (split_and_import_run args m o c Hn) as [o1 Hsplit].
  destruct (main_run args m o c Hfile Hn) as [o2 Hmain].
  simpl in Hsplit, Hmain. fold (files_after_split args m) in Hsplit.
  fold (pool_results (chunks args)) in Hsplit.
  eexists _, _. split; [exact Hsplit|]. split.
  { rewrite main_existing_file by done. by erewrite bind_returns by exact Hsplit. }
  split; [apply pool_results_length|].
  split; [intros p Hp; by apply temp_files_exist_after_split|].
  rewrite Hmain. simpl. rewrite <- all_succeeded_Forall.
  destruct (forallb _ (pool_results (chunks args))).
  - split; [|by intros []]. split; [done|]. intros _ p Hp.
    unfold temp_files in Hp. apply elem_of_cons in Hp as [->|Hp].
    + apply lookup_delete_eq.
    + rewrite lookup_delete_ne.
      * by apply remove_all_lookup.
      * intros <-. apply list_elem_of_fmap in Hp as (i & Heq & _).
        by eapply chunk_path_ne_clean.
  - split.
    + split; [|done]. intros Hnone. exfalso.
      specialize (Hnone clean_path ltac:(left)).
      rewrite files_after_split_clean in Hnone. done.
    + intros _ p Hp. split; [by apply temp_files_exist_after_split|done].
Qed.


(** C9: [--chunks] is not validated.  Line 70 is reached with whatever
    count was given: the division raises exactly when the count is 0, and
    for every count of at least 1 it yields the floor quotient.  With
    [--chunks 0] and an existing source file, [main] ends in
    [ZeroDivisionError] with the cleaned file already written, no chunk
    file created and no loader started. *)
Theorem chunk_count_is_unchecked (args : Args) (w : World) :
  (∀ L (w' : World),
     py_floordiv L (chunks args) w' = (w', inl ZeroDivisionError) ↔
     chunks args = 0) ∧
  (1 ≤ chunks args →
   ∀ L (w' : World),
     py_floordiv L (chunks args) w' = (w', inr (L `div` chunks args))) ∧
  (is_Some (fs w !! file args) → chunks args = 0 →
   (main args w).2 = inl ZeroDivisionError ∧
   fs (main args w).1 = <[clean_path := cleaned_of args (fs w)]> (fs w) ∧
   psql_calls (main args w).1 = psql_calls w).
Proof.
  split; [|split].
  - intros L w'. unfold py_floordiv. case_bool_decide; [done|].
    split; [intros [=]|done].
  - intros Hn L w'. unfold py_floordiv.
    by rewrite bool_decide_eq_false_2 by lia.
  - destruct w as [m o c]. simpl. intros Hfile Hn.
    rewrite main_existing_file by done.
    destruct (split_and_import_zero args m o c Hn) as [o' Hsplit].
    by erewrite bind_raises by exact Hsplit.
Qed.

(** Negative counts are not checked either: [Pool] raises. *)
Lemma negative_chunk_count (args : Args) (w : World) :
  is_Some (fs w !! file args) → chunks args < 0 →
  (main args w).2 = inl ValueError ∧ exit_status (main args w).2 = 1.
Proof.
  destruct w as [m o c]. simpl. intros Hfile Hn.
  rewrite main_existing_file by done.
  destruct (split_and_import_negative args m o c Hn) as [o' Hsplit].
  by erewrite bind_raises by exact Hsplit.
Qed.

(** ** The summary and the detail table *)

Lemma average_lines_details (rs : list ChunkResult) :
  average_lines ((λ r, ChunkDetail (chunk r) (status r) (time r)) <$> rs) = [].
Proof. induction rs as [|r rs IH]; csimpl; done. Qed.

Lemma detail_rows_details (rs : list ChunkResult) :
  detail_rows ((λ r, ChunkDetail (chunk r) (status r) (time r)) <$> rs) =
    detail_row <$> rs.
Proof. induction rs as [|r rs IH]; csimpl; [done|by rewrite IH]. Qed.

Lemma average_lines_report (results : list ChunkResult) :
  let successes := filter succeeded results in
  let success_count := Z.of_nat (length successes) in
  average_lines (report_lines results ++ [cleanup_line results]) =
    if decide (success_count = 0) then []
    else [py_truediv (py_sum (time <$> successes)) success_count].
Proof.
  intros successes success_count. unfold report_lines, average_lines.
  fold successes success_count. rewrite !omap_app.
  fold (average_lines ((λ r, ChunkDetail (chunk r) (status r) (time r))
                         <$> py_sorted results chunk)).
  rewrite average_lines_details.
  assert (omap (λ line, match line with AverageTime t => Some t | _ => None end)
            [cleanup_line results] = []) as ->.
  { unfold cleanup_line. by destruct (forallb _ results). }
  case_bool_decide; case_decide; try lia; done.
Qed.

Lemma detail_rows_report (results : list ChunkResult) :
  detail_rows (report_lines results ++ [cleanup_line results]) =
    detail_row <$> py_sorted results chunk.
Proof.
  unfold report_lines, detail_rows. rewrite !omap_app.
  fold (detail_rows ((λ r, ChunkDetail (chunk r) (status r) (time r))
                       <$> py_sorted results chunk)).
  rewrite detail_rows_details.
  assert (omap (λ line, match line with
                        | ChunkDetail i st t => Some (i, st, t)
                        | _ => None
                        end) [cleanup_line results] = []) as ->.
  { unfold cleanup_line. by destruct (forallb _ results). }
  case_bool_decide; simpl; by rewrite app_nil_r.
Qed.

Lemma filter_succeeded_retime (retime : ChunkResult → float)
    (results : list ChunkResult) :
  filter succeeded (retime_failed retime results) = filter succeeded results.
Proof.
  unfold retime_failed. induction results as [|r rs IH]; csimpl; [done|].
  rewrite !filter_cons, IH.
  destruct (decide (succeeded r)) as [Hr|Hr].
  - by rewrite decide_True.
  - by rewrite decide_False.
Qed.

(** C6: the summary prints no average when no chunk succeeded, so that
    nothing is divided by zero; otherwise it prints one average, the sum of
    the durations of the successful results divided by their number.  The
    durations of the failed chunks play no part: replacing them by anything
    leaves the printed average as it is. *)
Theorem average_over_successful_chunks
    (chunk_files : list string) (results : list ChunkResult) (w : World) :
  let successes := filter succeeded results in
  let success_count := Z.of_nat (length successes) in
  average_lines (printed_by (report chunk_files results) w) =
    (if decide (success_count = 0) then []
     else [py_truediv (py_sum (time <$> successes)) success_count]) ∧
  (report chunk_files results w).2 ≠ inl ZeroDivisionError ∧
  (∀ retime : ChunkResult → float,
     average_lines
       (printed_by (report chunk_files (retime_failed retime results)) w) =
     average_lines (printed_by (report chunk_files results) w)).
Proof.
  intros successes success_count. split; [|split].
  - rewrite printed_by_report. apply average_lines_report.
  - destruct (report_outcome chunk_files results w) as [_ [->| ->]]; done.
  - intros retime. rewrite !printed_by_report, !average_lines_report.
    by rewrite filter_succeeded_retime.
Qed.

(** C7: whatever order the results come in, the detail table is printed in
    ascending order of chunk index, and its rows are the rows of the
    results; when the results are those of chunks 1 to [N] in any order, in
    reverse for one, the table lists the chunks 1, 2, ..., [N]. *)
Theorem detail_table_in_index_order
    (chunk_files : list string) (results : list ChunkResult) (w : World) :
  let rows := detail_rows (printed_by (report chunk_files results) w) in
  StronglySorted Z.le (rows.*1.*1) ∧
  rows ≡ₚ detail_row <$> results ∧
  (∀ N : Z, chunk <$> results ≡ₚ seqZ 1 N → rows.*1.*1 = seqZ 1 N).
Proof.
  intros rows. unfold rows. rewrite printed_by_report, detail_rows_report.
  assert (Hkeys : (detail_row <$> py_sorted results chunk).*1.*1
                  = chunk <$> py_sorted results chunk).
  { rewrite <- !list_fmap_compose. done. }
  rewrite Hkeys. split; [apply py_sorted_keys_sorted|]. split.
  - by rewrite py_sorted_Permutation.
  - intros N Hperm. apply (StronglySorted_unique Z.le).
    + apply py_sorted_keys_sorted.
    + apply seqZ_sorted.
    + by rewrite py_sorted_Permutation.
Qed.

(** C8, as the script has it: the names of the temporary files do not
    depend on the run.  Any run writes the cleaned file to [/tmp/taq_clean]
    and chunk [i] to [/tmp/taq_chunk_i.csv]; these paths differ from one
    another within a run, and two runs share the cleaned file and every
    chunk file whose index both of them use. *)
Theorem temp_paths_are_fixed (args1 args2 : Args) (w1 w2 : World) :
  1 ≤ chunks args1 → 1 ≤ chunks args2 →
  ∃ (w1' w2' : World) (results1 results2 : list ChunkResult),
    split_and_import args1 w1 =
      (w1', inr (chunk_path <$> seqZ 0 (chunks args1), results1)) ∧
    split_and_import args2 w2 =
      (w2', inr (chunk_path <$> seqZ 0 (chunks args2), results2)) ∧
    NoDup (temp_files (chunks args1)) ∧
    NoDup (temp_files (chunks args2)) ∧
    (∀ path, path ∈ temp_files (chunks args1) → is_Some (fs w1' !! path)) ∧
    (∀ path, path ∈ temp_files (chunks args2) → is_Some (fs w2' !! path)) ∧
    (∀ path, path ∈ temp_files (Z.min (chunks args1) (chunks args2)) →
       path ∈ temp_files (chunks args1) ∧ path ∈ temp_files (chunks args2)).
Proof.
  destruct w1 as [m1 o1 c1], w2 as [m2 o2 c2]. intros Hn1 Hn2.
  destruct (split_and_import_run args1 m1 o1 c1 Hn1) as [o1' Hsplit1].
  destruct (split_and_import_run args2 m2 o2 c2 Hn2) as [o2' Hsplit2].
  simpl in Hsplit1, Hsplit2.
  fold (files_after_split args1 m1) in Hsplit1.
  fold (files_after_split args2 m2) in Hsplit2.
  eexists _, _, _, _. split; [exact Hsplit1|]. split; [exact Hsplit2|].
  split; [apply NoDup_temp_files|]. split; [apply NoDup_temp_files|].
  split; [intros p Hp; by apply temp_files_exist_after_split|].
  split; [intros p Hp; by apply temp_files_exist_after_split|].
  intros p. unfold temp_files. rewrite !elem_of_cons, !list_elem_of_fmap.
  intros [->|(i & -> & Hi%elem_of_seqZ)]; [by split; left|].
  split; right; exists i; (split; [done|]); apply elem_of_seqZ; lia.
Qed.

(** What becomes of a cleaned file with fewer lines than chunks: the chunk
    size is 0, every chunk but the last gets the range [1, 0], and [sed]
    prints line 1 for it; the last chunk gets the whole file; one [psql]
    is started per chunk. *)
Lemma short_file_split (args : Args) (w : World) :
  let cleaned := cleaned_of args (fs w) in
  let L := wc_l cleaned in
  let n := chunks args in
  1 ≤ L < n →
  L `div` n = 0 ∧
  (∀ i, 0 ≤ i < n - 1 →
     (chunk_start (L `div` n) i, chunk_end L n (L `div` n) i) = (1, 0) ∧
     fs (split_and_import args w).1 !! chunk_path i = Some (take 1 cleaned)) ∧
  (chunk_start (L `div` n) (n - 1), chunk_end L n (L `div` n) (n - 1)) = (1, L) ∧
  fs (split_and_import args w).1 !! chunk_path (n - 1) = Some cleaned ∧
  psql_calls (split_and_import args w).1 =
    psql_calls w ++ (chunk_path <$> seqZ 0 n).
Proof.
  destruct w as [m o c]. simpl. intros HL.
  set (cleaned := cleaned_of args m) in *.
  set (L := wc_l cleaned) in *. set (n := chunks args) in *.
  assert (Hcs : L `div` n = 0) by (apply Z.div_small; lia).
  destruct (split_and_import_run args m o c ltac:(lia)) as [o' Hsplit].
  simpl in Hsplit. fold (files_after_split args m) in Hsplit.
  rewrite Hsplit. simpl.
  split; [done|]. rewrite Hcs. split; [|split; [|split; [|done]]].
  - intros i Hi. unfold chunk_start. fold n in Hi.
    rewrite chunk_end_inner by lia.
    split; [f_equal; lia|].
    rewrite files_after_split_chunk by (fold n; lia).
    fold cleaned L n. rewrite Hcs. unfold chunk_start.
    rewrite chunk_end_inner by lia.
    rewrite sed_n_p_take_drop by lia. f_equal.
    replace (Z.to_nat (Z.max 1 ((i + 1) * 0 - (i * 0 + 1) + 1))) with 1%nat by lia.
    by replace (Z.to_nat (i * 0 + 1 - 1)) with 0%nat by lia.
  - unfold chunk_start. rewrite chunk_end_final by lia. f_equal. lia.
  - rewrite files_after_split_chunk by (fold n; lia).
    fold cleaned L n. rewrite Hcs. unfold chunk_start.
    rewrite chunk_end_final by lia.
    replace ((n - 1) * 0 + 1) with 1 by lia.
    unfold L. by rewrite sed_n_p_whole by (fold L; lia).
Qed.

End Claims.

(** * The worked example of the specification: 100 lines in 8 chunks *)

(** C3, as the script has it: for a cleaned file of 100 lines and 8 chunks
    the ranges are [1,12], [13,24], ..., [73,84] and [85,100]: seven chunks
    of 12 lines and a last chunk of 16 lines, and the chunk files written
    for these ranges have these numbers of lines. *)
Theorem chunks_of_100_lines_in_8 (cleaned : list string) :
  wc_l cleaned = 100 →
  chunk_ranges 100 8 =
    [(1, 12); (13, 24); (25, 36); (37, 48); (49, 60); (61, 72); (73, 84);
     (85, 100)] ∧
  range_size <$> chunk_ranges 100 8 = [12; 12; 12; 12; 12; 12; 12; 16] ∧
  (λ r, wc_l (sed_n_p r.1 r.2 cleaned)) <$> chunk_ranges 100 8 =
    [12; 12; 12; 12; 12; 12; 12; 16].
Proof.
  intros Hlen.
  assert (Hranges : chunk_ranges 100 8 =
    [(1, 12); (13, 24); (25, 36); (37, 48); (49, 60); (61, 72); (73, 84);
     (85, 100)]) by reflexivity.
  split; [exact Hranges|]. split; [reflexivity|].
  rewrite Hranges. csimpl.
  rewrite !sed_n_p_length by (rewrite ?Hlen; lia). done.
Qed.

Lemma chunks_of_100_lines_in_8_witness :
  let cleaned := replicate 100 "trade" in
  wc_l cleaned = 100 ∧
  (λ r, wc_l (sed_n_p r.1 r.2 cleaned)) <$> chunk_ranges 100 8 =
    [12; 12; 12; 12; 12; 12; 12; 16].
Proof.
  split; [reflexivity|].
  apply (chunks_of_100_lines_in_8 (replicate 100 "trade")). reflexivity.
Defined.

(** The ranges listed in the specification's example are not the ranges
    computed: there is no ninth range, and neither [85,96] nor [97,100] is
    among the eight. *)
Lemma listed_ranges_of_100_in_8_differ :
  chunk_ranges 100 8 ≠
    [(1, 12); (13, 24); (25, 36); (37, 48); (49, 60); (61, 72); (73, 84);
     (85, 96); (97, 100)] ∧
  ((85, 96) ∉ chunk_ranges 100 8) ∧
  ((97, 100) ∉ chunk_ranges 100 8) ∧
  last (chunk_ranges 100 8) = Some (85, 100).
Proof.
  split; [by vm_compute|].
  split; [apply (bool_decide_unpack _); by vm_compute|].
  split; [apply (bool_decide_unpack _); by vm_compute|].
  reflexivity.
Qed.

(** * Runs on concrete inputs *)

Lemma chunk_ranges_partition_witness :
  1 ≤ 8 ∧ 0 ≤ 100 ∧
  (∀ k, 1 ≤ k ≤ 100 ↔ ∃ r, r ∈ chunk_ranges 100 8 ∧ in_range r k).
Proof.
  split; [lia|]. split; [lia|].
  apply (chunk_ranges_partition 100 8); lia.
Defined.


(** A run on the small file with two chunks, where the load of chunk 2
    fails: both chunk files and the cleaned file are kept. *)
Lemma temp_files_deleted_iff_all_succeeded_witness :
  let args := trades_args 2 in
  let w := world_with (H := example_env) small_file in
  is_Some (fs w !! file args) ∧ 1 ≤ chunks args ∧
  ∃ (w1 : World) (results : list ChunkResult),
    split_and_import args w = (w1, inr (chunk_path <$> seqZ 0 2, results)) ∧
    main args w = report (chunk_path <$> seqZ 0 2) results w1 ∧
    length results = 2%nat ∧
    (∀ path, path ∈ temp_files 2 → is_Some (fs w1 !! path)) ∧
    ((∀ path, path ∈ temp_files 2 → fs (main args w).1 !! path = None) ↔
     Forall succeeded results) ∧
    (¬ Forall succeeded results →
     ∀ path, path ∈ temp_files 2 →
       is_Some (fs (main args w).1 !! path) ∧
       fs (main args w).1 !! path = fs w1 !! path).
Proof.
  intros args w. split; [by exists small_file|]. split; [by vm_compute|].
  apply (temp_files_deleted_iff_all_succeeded (H := example_env) args w).
  - by exists small_file.
  - by vm_compute.
Defined.

(** The same run evaluated: the three temporary files are still there. *)
Example failed_chunk_keeps_temp_files :
  let w' := (main (H := example_env) (trades_args 2)
               (world_with small_file)).1 in
  (fs w' !!.) <$> temp_files 2 =
    [Some ["trade 1"; "trade 2"; "trade 3"];
     Some ["trade 1"];
     Some ["trade 2"; "trade 3"]].
Proof. by vm_compute. Qed.

(** With every load succeeding they are gone. *)
Example all_succeeded_removes_temp_files :
  let w' := (main (H := success_env) (trades_args 2)
               (world_with small_file)).1 in
  (fs w' !!.) <$> temp_files 2 = [None; None; None] ∧
  fs w' !! "trades.txt" = Some small_file.
Proof. by vm_compute. Qed.



(** Three results handed over in reverse order of chunk index. *)
Lemma detail_table_in_index_order_witness :
  let r (i : Z) : ChunkResult :=
    @Build_ChunkResult example_env i (chunk_path (i - 1)) SUCCESS
      (inject_Z i) 0 in
  let results := [r 3; r 2; r 1] in
  let rows := detail_rows (printed_by (report [] results)
                             (world_with small_file)) in
  chunk <$> results ≡ₚ seqZ 1 3 ∧ rows.*1.*1 = [1; 2; 3].
Proof.
  intros r results rows.
  assert (Hperm : chunk <$> results ≡ₚ seqZ 1 3).
  { change (seqZ 1 3) with (reverse (chunk <$> results)).
    by rewrite reverse_Permutation. }
  split; [exact Hperm|].
  exact (proj2 (proj2 (detail_table_in_index_order (H := example_env) []
                         results (world_with small_file))) 3 Hperm).
Defined.

Lemma temp_paths_are_fixed_witness :
  let args1 := trades_args 2 in
  let args2 := {| file := "quotes.txt"; chunks := 3 |} in
  let w := mkWorld (H := example_env)
             {[ "trades.txt" := small_file; "quotes.txt" := small_file ]}
             [] [] in
  1 ≤ chunks args1 ∧ 1 ≤ chunks args2 ∧
  ∃ (w1' w2' : World) (results1 results2 : list ChunkResult),
    split_and_import args1 w =
      (w1', inr (chunk_path <$> seqZ 0 2, results1)) ∧
    split_and_import args2 w =
      (w2', inr (chunk_path <$> seqZ 0 3, results2)) ∧
    NoDup (temp_files 2) ∧
    NoDup (temp_files 3) ∧
    (∀ path, path ∈ temp_files 2 → is_Some (fs w1' !! path)) ∧
    (∀ path, path ∈ temp_files 3 → is_Some (fs w2' !! path)) ∧
    (∀ path, path ∈ temp_files (Z.min 2 3) →
       path ∈ temp_files 2 ∧ path ∈ temp_files 3).
Proof.
  intros args1 args2 w. split; [by vm_compute|]. split; [by vm_compute|].
  apply (temp_paths_are_fixed (H := example_env) args1 args2 w w);
    by vm_compute.
Defined.

(** Two different runs, on different source files with different chunk
    counts, write to the same cleaned file and to the same first two chunk
    files. *)
Lemma two_runs_share_temp_paths :
  let args1 := trades_args 2 in
  let args2 := {| file := "quotes.txt"; chunks := 3 |} in
  let w := mkWorld (H := example_env)
             {[ "trades.txt" := small_file; "quotes.txt" := small_file ]}
             [] [] in
  args1 ≠ args2 ∧
  chunk_files_created args1 w =
    Some ["/tmp/taq_chunk_0.csv"; "/tmp/taq_chunk_1.csv"] ∧
  chunk_files_created args2 w =
    Some ["/tmp/taq_chunk_0.csv"; "/tmp/taq_chunk_1.csv";
          "/tmp/taq_chunk_2.csv"] ∧
  fs w !! "/tmp/taq_clean" = None ∧
  is_Some (fs (split_and_import args1 w).1 !! "/tmp/taq_clean") ∧
  is_Some (fs (split_and_import args2 w).1 !! "/tmp/taq_clean").
Proof.
  intros args1 args2 w. split; [by vm_compute|].
  split; [by vm_compute|]. split; [by vm_compute|]. split; [by vm_compute|].
  split; eexists; by vm_compute.
Qed.

Lemma chunk_count_is_unchecked_witness :
  let w := world_with (H := example_env) small_file in
  (1 ≤ chunks (trades_args 8) ∧
   py_floordiv 3 (chunks (trades_args 8)) w = (w, inr 0)) ∧
  (is_Some (fs w !! file (trades_args 0)) ∧ chunks (trades_args 0) = 0 ∧
   (main (trades_args 0) w).2 = inl ZeroDivisionError ∧
   fs (main (trades_args 0) w).1 =
     <[clean_path := cleaned_of (trades_args 0) (fs w)]> (fs w) ∧
   psql_calls (main (trades_args 0) w).1 = psql_calls w).
Proof.
  intros w. split.
  - split; [by vm_compute|].
    apply (chunk_count_is_unchecked (H := example_env) (trades_args 8) w).
    by vm_compute.
  - split; [by exists small_file|]. split; [reflexivity|].
    apply (chunk_count_is_unchecked (H := example_env) (trades_args 0) w).
    + by exists small_file.
    + reflexivity.
Defined.

(** C10 on a file of three trades and 8 chunks: the chunk size is 0 and
    the first seven ranges are [1, 0], but their chunk files are not empty:
    each holds the first trade, which the last chunk file holds as well;
    [psql] is started once on each of the eight chunk files. *)
Theorem short_file_chunks_hold_first_line :
  let run := split_and_import (H := success_env) (trades_args 8)
               (world_with small_file) in
  fs run.1 !! clean_path = Some ["trade 1"; "trade 2"; "trade 3"] ∧
  chunk_ranges 3 8 =
    [(1, 0); (1, 0); (1, 0); (1, 0); (1, 0); (1, 0); (1, 0); (1, 3)] ∧
  (fs run.1 !!.) <$> (chunk_path <$> seqZ 0 8) =
    [Some ["trade 1"]; Some ["trade 1"]; Some ["trade 1"]; Some ["trade 1"];
     Some ["trade 1"]; Some ["trade 1"]; Some ["trade 1"];
     Some ["trade 1"; "trade 2"; "trade 3"]] ∧
  psql_calls run.1 = chunk_path <$> seqZ 0 8.
Proof. by vm_compute. Qed.

(** * Further properties of the splitter *)



Lemma seqZ_snoc (n : Z) : 1 ≤ n → seqZ 0 n = seqZ 0 (n - 1) ++ [n - 1].
Proof.
  intros Hn. replace (seqZ 0 n) with (seqZ 0 ((n - 1) + 1)) by (f_equal; lia).
  by rewrite seqZ_app by lia.
Qed.

Lemma chunk_contents_lookup (cleaned : list string) (n i : Z) :
  0 ≤ i < n →
  chunk_contents cleaned n !! Z.to_nat i =
    Some (sed_n_p (chunk_start (wc_l cleaned `div` n) i)
            (chunk_end (wc_l cleaned) n (wc_l cleaned `div` n) i) cleaned).
Proof.
  intros Hi. unfold chunk_contents. rewrite list_lookup_fmap.
  erewrite (proj2 (chunk_ranges_lookup (wc_l cleaned) n (Z.to_nat i) _));
    [|split; [lia|reflexivity]].
  simpl. by rewrite Z2Nat.id by lia.
Qed.

Lemma chunk_contents_length (cleaned : list string) (n : Z) :
  length (chunk_contents cleaned n) = Z.to_nat n.
Proof. unfold chunk_contents. by rewrite length_fmap, chunk_ranges_length. Qed.

Lemma concat_const_length {A B} (x : list A) (l : list B) :
  length (concat ((λ _, x) <$> l)) = (length l * length x)%nat.
Proof.
  induction l as [|y l IH]; csimpl; [done|]. rewrite length_app, IH. lia.
Qed.

(** The chunk files of an empty cleaned file are all empty. *)
Lemma chunk_contents_of_empty (cleaned : list string) (n : Z) :
  wc_l cleaned = 0 → Forall (λ lines, lines = []) (chunk_contents cleaned n).
Proof.
  intros HL. assert (cleaned = []) as ->.
  { apply nil_length_inv. unfold wc_l in HL. lia. }
  unfold chunk_contents. apply Forall_fmap, Forall_true. done.
Qed.

Lemma concat_all_nil {A} (ls : list (list A)) :
  Forall (λ l, l = []) ls → concat ls = [].
Proof. induction 1 as [|l ls -> _ IH]; simpl; [done|exact IH]. Qed.

(** With fewer lines than chunks the chunk files hold more lines than the
    cleaned file: its first line once per chunk before the last. *)
Lemma chunk_contents_of_short (cleaned : list string) (n : Z) :
  1 ≤ wc_l cleaned < n →
  length (concat (chunk_contents cleaned n)) =
    (Z.to_nat (n - 1) + length cleaned)%nat.
Proof.
  intros HL. set (L := wc_l cleaned) in *.
  assert (Hcs : L `div` n = 0) by (apply Z.div_small; lia).
  unfold chunk_contents, chunk_ranges. fold L.
  rewrite <- list_fmap_compose, seqZ_snoc, fmap_app, concat_app by lia.
  rewrite (Forall_fmap_ext_1 _ (λ _, take 1 cleaned)).
  2:{ apply Forall_seqZ. intros i Hi. simpl. rewrite Hcs.
      rewrite chunk_end_inner by lia. unfold chunk_start.
      rewrite sed_n_p_take_drop by lia.
      replace (Z.to_nat (Z.max 1 ((i + 1) * 0 - (i * 0 + 1) + 1)))
        with 1%nat by lia.
      by replace (Z.to_nat (i * 0 + 1 - 1)) with 0%nat by lia. }
  rewrite length_app, concat_const_length, length_seqZ. simpl.
  rewrite app_nil_r, Hcs, chunk_end_final by lia. unfold chunk_start.
  replace ((n - 1) * 0 + 1) with 1 by lia.
  unfold L. rewrite sed_n_p_whole by (fold L; lia).
  rewrite length_take. unfold L, wc_l in HL.
  replace (1 `min` length cleaned)%nat with 1%nat by lia. lia.
Qed.

(** The chunk files laid end to end are the cleaned file exactly when it
    is empty or has at least as many lines as there are chunks. *)
Lemma chunk_contents_tile_iff (cleaned : list string) (n : Z) :
  1 ≤ n →
  concat (chunk_contents cleaned n) = cleaned ↔
  wc_l cleaned = 0 ∨ n ≤ wc_l cleaned.
Proof.
  intros Hn. split.
  - intros Heq.
    destruct (decide (wc_l cleaned = 0)) as [|Hne]; [by left|right].
    destruct (decide (n ≤ wc_l cleaned)) as [|Hlt]; [done|exfalso].
    assert (Hshort : 1 ≤ wc_l cleaned < n) by (unfold wc_l in *; lia).
    pose proof (chunk_contents_of_short cleaned n Hshort) as Hlen.
    rewrite Heq in Hlen. unfold wc_l in Hshort. lia.
  - intros [HL|HL].
    + rewrite concat_all_nil by by apply chunk_contents_of_empty.
      symmetry. apply nil_length_inv. unfold wc_l in HL. lia.
    + by apply chunk_files_concat.
Qed.

(** * What a run prints *)

Section Transcript.
Context `{Environment}.
Implicit Types (m : gmap string (list string)) (o : list Out) (c : list string).

Lemma chunk_loop_stdout L n cs indices (acc : list string) m o c :
  stdout (for_each indices (λ i chunk_files,
      let first := chunk_start cs i in
      let last := chunk_end L n cs i in
      let chunk_file := chunk_path i in
      print (CreatingChunk (i + 1) n first last chunk_file);;
      os_system_sed (sed_n_p first last) clean_path chunk_file;;
      mret (chunk_files ++ [chunk_file])) acc (mkWorld m o c)).1 =
  o ++ (creating_line L n cs <$> indices).
Proof.
  revert acc m o. induction indices as [|i indices IH]; intros acc m o.
  - simpl. by rewrite app_nil_r.
  - csimpl. rewrite bind_run. rewrite bind_run. unfold print at 1. simpl.
    replace (o ++ creating_line L n cs i :: (creating_line L n cs <$> indices))
      with ((o ++ [creating_line L n cs i])
              ++ (creating_line L n cs <$> indices))
      by (by rewrite <- app_assoc).
    apply (IH _ _ (o ++ [creating_line L n cs i])).
Qed.

Lemma create_chunk_files_stdout n L cs m o c :
  stdout (create_chunk_files n L cs (mkWorld m o c)).1 =
    o ++ (creating_line L n cs <$> seqZ 0 n).
Proof. apply chunk_loop_stdout. Qed.

Lemma import_chunk_transcript args m o c :
  import_chunk args (mkWorld m o c) =
    (mkWorld m (o ++ worker_lines args) (c ++ [args.1.2]),
     inr (chunk_result_of args)).
Proof.
  destruct args as [[i f] total].
  unfold import_chunk, worker_lines, chunk_result_of; simpl.
  unfold mbind, M_bind, print, popen_psql; simpl.
  case_bool_decide; simpl; by rewrite <- !app_assoc.
Qed.

Lemma import_all_transcript (xs : list (Z * string * Z)) m o c :
  mapM import_chunk xs (mkWorld m o c) =
    (mkWorld m (o ++ concat (worker_lines <$> xs))
       (c ++ ((λ x, x.1.2) <$> xs)),
     inr (chunk_result_of <$> xs)).
Proof.
  revert o c. induction xs as [|x xs IH]; intros o c.
  - simpl. by rewrite !app_nil_r.
  - simpl. rewrite bind_run, import_chunk_transcript.
    rewrite bind_run, IH. simpl. unfold mret, M_ret, worker_lines.
    by rewrite <- !app_assoc.
Qed.

(** Lines 55-89 in full, for at least one chunk. *)
Lemma split_and_import_transcript args m o c :
  1 ≤ chunks args →
  split_and_import args (mkWorld m o c) =
    (mkWorld (files_after_split args m) (o ++ split_lines args m)
       (c ++ (chunk_path <$> seqZ 0 (chunks args))),
     inr (chunk_path <$> seqZ 0 (chunks args), pool_results (chunks args))).
Proof.
  intros Hn. set (cleaned := cleaned_of args m). set (L := wc_l cleaned).
  set (n := chunks args).
  unfold split_and_import.
  rewrite !print_bind, os_system_sed_bind, insert_insert_eq, print_bind.
  fold (cleaned_of args m). fold cleaned.
  rewrite (check_output_wc_l_bind _ cleaned) by apply lookup_insert_eq.
  fold L. rewrite py_floordiv_bind by lia. fold n. rewrite !print_bind.
  match goal with
  | |- (create_chunk_files _ _ _ ≫= _) (mkWorld ?m1 ?o1 _) = _ =>
      pose proof (create_chunk_files_stdout n L (L `div` n) m1 o1 c) as Hout;
      destruct (create_chunk_files_run n L (L `div` n) cleaned m1 o1 c)
        as [o2 Hloop]; [apply lookup_insert_eq|]
  end.
  rewrite Hloop in Hout. simpl in Hout. subst o2.
  erewrite bind_returns by exact Hloop. rewrite print_bind.
  rewrite enumerate_chunk_paths by lia.
  rewrite length_fmap, length_seqZ, Z2Nat.id by lia.
  unfold pool_map. rewrite bool_decide_eq_false_2 by lia.
  erewrite bind_returns by apply import_all_transcript.
  rewrite chunk_args_paths. unfold mret, M_ret.
  unfold files_after_split, split_lines, pool_results.
  fold cleaned L n. do 2 f_equal.
  repeat (rewrite <- app_assoc; simpl). done.
Qed.

(** [main] in full, for an existing source file and at least one chunk. *)
Lemma main_transcript args m o c :
  is_Some (m !! file args) → 1 ≤ chunks args →
  let n := chunks args in
  let files := files_after_split args m in
  main args (mkWorld m o c) =
    (mkWorld
       (if forallb (λ r, bool_decide (succeeded r)) (pool_results n)
        then delete clean_path (remove_all (chunk_path <$> seqZ 0 n) files)
        else files)
       (o ++ split_lines args m ++ report_lines (pool_results n)
          ++ [cleanup_line (pool_results n)])
       (c ++ (chunk_path <$> seqZ 0 n)),
     inr tt).
Proof.
  intros Hfile Hn n files. rewrite main_existing_file by done.
  erewrite bind_returns by by apply split_and_import_transcript.
  lazy beta iota. fold n files. rewrite report_run. unfold cleanup_line.
  destruct (forallb _ (pool_results n)).
  - rewrite cleanup_run.
    + by rewrite <- !app_assoc.
    + apply NoDup_chunk_paths.
    + pose proof (NoDup_temp_files n) as Hnd. unfold temp_files in Hnd.
      by apply NoDup_cons in Hnd as [? _].
    + intros p Hp. by apply temp_files_exist_after_split.
  - unfold print. lazy beta iota. cbn [fs stdout psql_calls].
    by rewrite <- !app_assoc.
Qed.

End Transcript.

(** * Further properties of a run *)

Section Extras.
Context `{Environment}.
Implicit Types (m : gmap string (list string)) (o : list Out) (c : list string).

Lemma omap_fmap_None {A B C} (f : B → option C) (g : A → B) (l : list A) :
  (∀ x, f (g x) = None) → omap f (g <$> l) = [].
Proof.
  intros Hnone. induction l as [|x l IH]; csimpl; [done|].
  by rewrite Hnone.
Qed.

Lemma omap_concat_nil {A B} (f : A → option B) (ls : list (list A)) :
  Forall (λ l, omap f l = []) ls → omap f (concat ls) = [].
Proof.
  induction 1 as [|l ls Hl _ IH]; simpl; [done|].
  by rewrite omap_app, Hl, IH.
Qed.

(** Whatever the chunk count, lines 55-89 leave the cleaned file and the
    chunk files of [files_after_split] behind. *)
Lemma split_and_import_fs args (w : World) :
  fs (split_and_import args w).1 = files_after_split args (fs w).
Proof.
  destruct w as [m o c]. simpl.
  destruct (Z.lt_trichotomy (chunks args) 0) as [Hn|[Hn|Hn]].
  - destruct (split_and_import_negative args m o c Hn) as [o' ->]. simpl.
    unfold files_after_split, write_chunks. by rewrite seqZ_nil by lia.
  - destruct (split_and_import_zero args m o c Hn) as [o' ->]. simpl.
    unfold files_after_split, write_chunks. by rewrite seqZ_nil by lia.
  - by rewrite split_and_import_transcript by lia.
Qed.


Lemma chunk_files_on_disk_after_split args m :
  chunk_files_on_disk (chunks args) (files_after_split args m) =
    chunk_contents (cleaned_of args m) (chunks args).
Proof.
  unfold chunk_files_on_disk, chunk_contents, chunk_ranges.
  rewrite <- list_fmap_compose. apply Forall_fmap_ext_1, Forall_seqZ.
  intros i Hi. simpl. by rewrite files_after_split_chunk by lia.
Qed.






(** X2: when the source file is [/tmp/taq_clean] itself, the redirection
    of line 65 empties it before [sed] reads it: the cleaned file and every
    chunk file are empty, whatever the source held. *)
Theorem source_at_clean_path_is_emptied (args : Args) (w : World) :
  file args = clean_path →
  fs (split_and_import args w).1 !! clean_path = Some [] ∧
  (∀ i, 0 ≤ i < chunks args →
     fs (split_and_import args w).1 !! chunk_path i = Some []).
Proof.
  intros Hfile. rewrite split_and_import_fs.
  assert (Hcleaned : cleaned_of args (fs w) = []).
  { unfold cleaned_of. by rewrite Hfile, lookup_insert_eq. }
  split.
  - by rewrite files_after_split_clean, Hcleaned.
  - intros i Hi. rewrite files_after_split_chunk by done.
    by rewrite Hcleaned.
Qed.

(** X3: with a single chunk, the one chunk file is the whole cleaned
    file. *)
Theorem single_chunk_is_whole_file (args : Args) (w : World) :
  chunks args = 1 →
  fs (split_and_import args w).1 !! chunk_path 0 =
    Some (cleaned_of args (fs w)) ∧
  fs (split_and_import args w).1 !! clean_path =
    Some (cleaned_of args (fs w)).
Proof.
  intros Hn. rewrite split_and_import_fs, files_after_split_clean.
  split; [|done]. rewrite files_after_split_chunk by lia.
  rewrite Hn, chunk_end_final by lia. unfold chunk_start. f_equal.
  replace (0 * (wc_l (cleaned_of args (fs w)) `div` 1) + 1) with 1 by lia.
  destruct (cleaned_of args (fs w)) as [|l rest] eqn:Hcleaned; [done|].
  rewrite sed_n_p_whole; [done|]. unfold wc_l. simpl. lia.
Qed.

(** X4: the chunk files on disk, laid end to end in chunk order, are the
    cleaned file exactly when the cleaned file is empty or has at least as
    many lines as there are chunks. *)
Theorem chunk_files_tile_cleaned_file_iff (args : Args) (w : World) :
  1 ≤ chunks args →
  let files := fs (split_and_import args w).1 in
  let cleaned := cleaned_of args (fs w) in
  files !! clean_path = Some cleaned ∧
  (concat (chunk_files_on_disk (chunks args) files) = cleaned ↔
   wc_l cleaned = 0 ∨ chunks args ≤ wc_l cleaned).
Proof.
  intros Hn files cleaned. unfold files. rewrite split_and_import_fs.
  split; [apply files_after_split_clean|].
  rewrite chunk_files_on_disk_after_split. by apply chunk_contents_tile_iff.
Qed.

(** X5: when the cleaned file has at least as many lines as there are
    chunks, every chunk file before the last has exactly [L / n] lines and
    the last has [L / n + L mod n] lines. *)
Theorem chunk_file_line_counts (args : Args) (w : World) (i : Z) :
  let L := wc_l (cleaned_of args (fs w)) in
  let n := chunks args in
  1 ≤ n ≤ L → 0 ≤ i < n →
  ∃ lines,
    fs (split_and_import args w).1 !! chunk_path i = Some lines ∧
    wc_l lines = if bool_decide (i < n - 1) then L `div` n
                 else L `div` n + L `mod` n.
Proof.
  intros L n Hn Hi. rewrite split_and_import_fs.
  rewrite files_after_split_chunk by done. fold L n.
  eexists. split; [done|].
  destruct (chunk_size_bounds L n ltac:(lia) ltac:(lia)) as (Hcs & Hlo & Hhi).
  pose proof (Z.div_mod L n ltac:(lia)) as Hdm.
  unfold chunk_start. case_bool_decide as Hlast.
  - rewrite chunk_end_inner by done.
    rewrite sed_n_p_length; [lia|nia|nia|fold L; nia].
  - rewrite chunk_end_final by done.
    rewrite sed_n_p_length; [nia|nia|nia|fold L; lia].
Qed.




(** X9: a negative chunk count is not rejected up front: the cleaned file
    is written, the loop creates no chunk file, [Pool] raises
    [ValueError], and the process ends with status 1, no loader started,
    the cleaned file left behind. *)
Theorem negative_chunk_count_leaves_cleaned_file (args : Args) (w : World) :
  is_Some (fs w !! file args) → chunks args < 0 →
  (main args w).2 = inl ValueError ∧
  exit_status (main args w).2 = 1 ∧
  fs (main args w).1 = <[clean_path := cleaned_of args (fs w)]> (fs w) ∧
  psql_calls (main args w).1 = psql_calls w.
Proof.
  destruct w as [m o c]. simpl. intros Hfile Hn.
  rewrite main_existing_file by done.
  destruct (split_and_import_negative args m o c Hn) as [o' Hsplit].
  by erewrite bind_raises by exact Hsplit.
Qed.


Lemma failed_count (results : list ChunkResult) :
  Z.of_nat (length results) - Z.of_nat (length (filter succeeded results)) =
  Z.of_nat (length (filter (λ r, status r = FAILED) results)).
Proof.
  induction results as [|r rs IH]; [done|].
  rewrite !filter_cons.
  assert (Hcases : succeeded r ∧ status r ≠ FAILED
                   ∨ ¬ succeeded r ∧ status r = FAILED).
  { unfold succeeded. destruct (status r); [left|right]; done. }
  destruct Hcases as [[Hs Hf]|[Hs Hf]].
  - rewrite decide_True, decide_False by done. simpl. lia.
  - rewrite decide_False, decide_True by done. simpl. lia.
Qed.

(** X11: the summary prints the number of results, the number of SUCCESS
    results and the number of FAILED results, in this order, and the last
    two add up to the first. *)
Theorem summary_counts_add_up
    (chunk_files : list string) (results : list ChunkResult) (w : World) :
  let total := Z.of_nat (length results) in
  let successes := Z.of_nat (length (filter succeeded results)) in
  let failures :=
    Z.of_nat (length (filter (λ r, status r = FAILED) results)) in
  summary_counts (printed_by (report chunk_files results) w) =
    [total; successes; failures] ∧
  successes + failures = total.
Proof.
  intros total successes failures.
  pose proof (failed_count results) as Hfailed.
  fold total successes failures in Hfailed. split; [|lia].
  rewrite printed_by_report. unfold summary_counts, report_lines.
  rewrite !omap_app. fold successes total. rewrite Hfailed.
  rewrite (omap_fmap_None _ _ (py_sorted results chunk)) by done.
  unfold cleanup_line.
  case_bool_decide; destruct (forallb _ results); done.
Qed.

Lemma main_printed (args : Args) (w : World) :
  is_Some (fs w !! file args) → 1 ≤ chunks args →
  printed_by (main args) w =
    split_lines args (fs w) ++ report_lines (pool_results (chunks args))
      ++ [cleanup_line (pool_results (chunks args))].
Proof.
  destruct w as [m o c]. simpl. intros Hfile Hn. unfold printed_by.
  rewrite main_transcript by done. simpl. by rewrite drop_app_length.
Qed.









Lemma printed_ranges_creating (L n cs : Z) (indices : list Z) :
  printed_ranges (creating_line L n cs <$> indices) =
    (λ i, (chunk_start cs i, chunk_end L n cs i)) <$> indices.
Proof. induction indices as [|i indices IH]; csimpl; [done|by rewrite IH]. Qed.

(** X16: the ranges announced by the "Creating chunk" lines of a run are
    the ranges computed for its cleaned file, in chunk order. *)
Theorem announced_ranges (args : Args) (w : World) :
  is_Some (fs w !! file args) → 1 ≤ chunks args →
  printed_ranges (printed_by (main args) w) =
    chunk_ranges (wc_l (cleaned_of args (fs w))) (chunks args).
Proof.
  intros Hfile Hn. rewrite main_printed by done.
  unfold printed_ranges at 1, split_lines, report_lines.
  rewrite !omap_app.
  fold (printed_ranges
          (creating_line (wc_l (cleaned_of args (fs w))) (chunks args)
             (wc_l (cleaned_of args (fs w)) `div` chunks args)
             <$> seqZ 0 (chunks args))).
  rewrite printed_ranges_creating.
  rewrite omap_concat_nil.
  2:{ apply Forall_fmap, Forall_true. intros x.
      unfold compose, worker_lines. simpl. by case_bool_decide. }
  rewrite (omap_fmap_None _ _ (py_sorted _ chunk)) by done.
  unfold cleanup_line.
  case_bool_decide; destruct (forallb _ _); simpl;
    by rewrite ?app_nil_r.
Qed.

End Extras.

(** * Further runs on concrete inputs *)


Lemma source_at_clean_path_is_emptied_witness :
  let args := {| file := clean_path; chunks := 2 |} in
  let w := mkWorld (H := example_env) {[ clean_path := small_file ]} [] [] in
  file args = clean_path ∧
  fs (split_and_import args w).1 !! clean_path = Some [] ∧
  (∀ i, 0 ≤ i < chunks args →
     fs (split_and_import args w).1 !! chunk_path i = Some []).
Proof.
  intros args w. split; [reflexivity|].
  apply (source_at_clean_path_is_emptied (H := example_env) args w).
  reflexivity.
Defined.

Lemma single_chunk_is_whole_file_witness :
  let args := trades_args 1 in
  let w := world_with (H := example_env) small_file in
  chunks args = 1 ∧
  fs (split_and_import args w).1 !! chunk_path 0 =
    Some (cleaned_of args (fs w)) ∧
  fs (split_and_import args w).1 !! clean_path =
    Some (cleaned_of args (fs w)).
Proof.
  intros args w. split; [reflexivity|].
  apply (single_chunk_is_whole_file (H := example_env) args w). reflexivity.
Defined.

Lemma chunk_files_tile_cleaned_file_iff_witness :
  let args := trades_args 2 in
  let w := world_with (H := example_env) small_file in
  let files := fs (split_and_import args w).1 in
  let cleaned := cleaned_of args (fs w) in
  1 ≤ chunks args ∧
  files !! clean_path = Some cleaned ∧
  (concat (chunk_files_on_disk (chunks args) files) = cleaned ↔
   wc_l cleaned = 0 ∨ chunks args ≤ wc_l cleaned).
Proof.
  intros args w files cleaned. split; [by vm_compute|].
  apply (chunk_files_tile_cleaned_file_iff (H := example_env) args w).
  by vm_compute.
Defined.

Lemma chunk_file_line_counts_witness :
  let args := trades_args 2 in
  let w := world_with (H := example_env) small_file in
  let L := wc_l (cleaned_of args (fs w)) in
  1 ≤ chunks args ≤ L ∧ 0 ≤ 1 < chunks args ∧
  ∃ lines,
    fs (split_and_import args w).1 !! chunk_path 1 = Some lines ∧
    wc_l lines = if bool_decide (1 < chunks args - 1) then L `div` chunks args
                 else L `div` chunks args + L `mod` chunks args.
Proof.
  intros args w L. split; [by vm_compute|]. split; [by vm_compute|].
  apply (chunk_file_line_counts (H := example_env) args w 1); by vm_compute.
Defined.



Lemma negative_chunk_count_leaves_cleaned_file_witness :
  let args := trades_args (-1) in
  let w := world_with (H := example_env) small_file in
  is_Some (fs w !! file args) ∧ chunks args < 0 ∧
  (main args w).2 = inl ValueError ∧
  exit_status (main args w).2 = 1 ∧
  fs (main args w).1 = <[clean_path := cleaned_of args (fs w)]> (fs w) ∧
  psql_calls (main args w).1 = psql_calls w.
Proof.
  intros args w. split; [by exists small_file|]. split; [by vm_compute|].
  apply (negative_chunk_count_leaves_cleaned_file (H := example_env) args w);
    [by exists small_file|by vm_compute].
Defined.





Lemma announced_ranges_witness :
  let args := trades_args 2 in
  let w := world_with (H := example_env) small_file in
  is_Some (fs w !! file args) ∧ 1 ≤ chunks args ∧
  printed_ranges (printed_by (main args) w) =
    chunk_ranges (wc_l (cleaned_of args (fs w))) (chunks args).
Proof.
  intros args w. split; [by exists small_file|]. split; [by vm_compute|].
  apply (announced_ranges (H := example_env) args w);
    [by exists small_file|by vm_compute].
Defined.

(** What the run on the small file with two chunks prints for the ranges,
    the errors and the detail table. *)
Example small_run_output :
  let lines := printed_by (main (H := example_env) (trades_args 2))
                 (world_with small_file) in
  printed_ranges lines = [(1, 1); (2, 3)] ∧
  error_lines lines = ["ERROR:  invalid input syntax"] ∧
  detail_rows lines = [(1, SUCCESS, (1 # 2)%Q); (2, FAILED, 3%Q)] ∧
  summary_counts lines = [2; 1; 1] ∧
  last lines = Some TempFilesKept.
Proof. by vm_compute. Qed.
